(** * spaceSIM orbital-mechanics core: Gravity.js and KeplerianOrbit.js

    A shallow embedding of the two numeric utility modules of the game,
    [src/js/utils/Gravity.js] and [src/js/utils/KeplerianOrbit.js], and the
    properties their specification states about them.

    JavaScript numbers are IEEE-754 binary64 values.  The functions are
    embedded once, over an interface of the operations the source uses
    ([Number] for the arithmetic operators, [Math.sqrt], [===] and numeric
    literals, [MathObject] for the other members of [Math]), and the
    interface is instantiated twice:

    - [Binary64]: Rocq's primitive floats, the arithmetic the engine really
      performs (round-to-nearest-even, signed zeros, infinities, NaN);
    - [Exact]: the real numbers, the arithmetic the formulas of the
      specification are written in.

    Properties that only say which formula is evaluated are proved for every
    instance of the interface, so for both arithmetics and for whatever
    [Math.sin], [Math.cos] and [Math.atan2] the engine has.  Properties of
    the guard [r === 0] are proved over [Binary64].  Algebraic properties
    are proved over [Exact]; where rounding, underflow or infinities make
    the double-precision code deviate from them, a concrete
    double-precision input is evaluated. *)

From Stdlib Require Import ZArith Bool Lia String.
From Stdlib Require Import Floats.
From Stdlib Require Import Reals Lra RNsatz.
From Equations Require Import Equations.

(** ** The numeric interface *)

Declare Scope js_scope.
Delimit Scope js_scope with js.

(** The operations on numbers that are correctly rounded in every engine:
    the four arithmetic operators and [Math.sqrt], together with [===]
    ([strictEq]) and the decimal literals ([lit m k] is [m * 10^-k]). *)
Class Number (num : Type) : Type := {
  add : num -> num -> num;
  sub : num -> num -> num;
  mul : num -> num -> num;
  div : num -> num -> num;
  Math_sqrt : num -> num;
  strictEq : num -> num -> bool;
  lit : Z -> nat -> num
}.

(** The transcendental members of the global [Math] object that
    [KeplerianOrbit] uses.  The language standard leaves their values to the
    implementation, so they form an interface of their own. *)
Class MathObject (num : Type) : Type := {
  Math_sin : num -> num;
  Math_cos : num -> num;
  Math_atan2 : num -> num -> num;
  Math_PI : num
}.

Infix "+" := add : js_scope.
Infix "-" := sub : js_scope.
Infix "*" := mul : js_scope.
Infix "/" := div : js_scope.
Infix "===" := strictEq (at level 70, no associativity) : js_scope.
Notation "# n" := (lit n%Z 0) (at level 1, n at level 0, format "# n") : js_scope.

(** ** Vectors: the object literals [{x, y, z}] *)

Record Vector3 (num : Type) : Type := mkVector3 { x : num; y : num; z : num }.

Arguments mkVector3 {num} _ _ _.
Arguments x {num} _.
Arguments y {num} _.
Arguments z {num} _.

(** ** Gravity.js *)

Section Gravity.

Context {num : Type} {numOps : Number num}.
Local Open Scope js_scope.

(** [G: 6.67430e-11] *)
Definition G : num := lit 66743 15.

(** [SCALE: 1e9] *)
Definition SCALE : num := #1000000000.

Definition calculateForce (m1 m2 : num) (pos1 pos2 : Vector3 num) : Vector3 num :=
  let dx := pos2.(x) - pos1.(x) in
  let dy := pos2.(y) - pos1.(y) in
  let dz := pos2.(z) - pos1.(z) in
  let rSquared := dx * dx + dy * dy + dz * dz in
  let r := Math_sqrt rSquared in
  if r === #0 then {| x := #0; y := #0; z := #0 |}
  else
    let F := (G * m1 * m2) / rSquared in
    (* Normalize direction and apply force *)
    {| x := (F * dx) / r;
       y := (F * dy) / r;
       z := (F * dz) / r |}.

Definition calculateAcceleration (m2 : num) (pos1 pos2 : Vector3 num) : Vector3 num :=
  let dx := pos2.(x) - pos1.(x) in
  let dy := pos2.(y) - pos1.(y) in
  let dz := pos2.(z) - pos1.(z) in
  let rSquared := dx * dx + dy * dy + dz * dz in
  let r := Math_sqrt rSquared in
  if r === #0 then {| x := #0; y := #0; z := #0 |}
  else
    let a := (G * m2) / rSquared in
    {| x := (a * dx) / r;
       y := (a * dy) / r;
       z := (a * dz) / r |}.

Definition orbitalVelocity (m r : num) : num :=
  Math_sqrt ((G * m) / r).

End Gravity.

(** ** KeplerianOrbit.js *)

(** The [elements] argument is an object whose seven properties may each be
    absent ([None]). *)
Record OrbitalElements (num : Type) : Type := mkElements {
  semiMajorAxis : option num;
  eccentricity : option num;
  inclination : option num;
  longitudeOfAscendingNode : option num;
  argumentOfPeriapsis : option num;
  meanAnomalyAtEpoch : option num;
  orbitalPeriod : option num
}.

Arguments mkElements {num} _ _ _ _ _ _ _.
Arguments semiMajorAxis {num} _.
Arguments eccentricity {num} _.
Arguments inclination {num} _.
Arguments longitudeOfAscendingNode {num} _.
Arguments argumentOfPeriapsis {num} _.
Arguments meanAnomalyAtEpoch {num} _.
Arguments orbitalPeriod {num} _.

(** The object is passed by reference, so a function that receives it could
    change it.  Code that works on the object is a state transformer over it:
    it returns its result together with the object as it leaves it. *)
Definition Eff (S X : Type) : Type := S -> X * S.

Definition ret {S X : Type} (v : X) : Eff S X := fun s => (v, s).

Definition bind {S X Y : Type} (c : Eff S X) (k : X -> Eff S Y) : Eff S Y :=
  fun s => let (v, s') := c s in k v s'.

Notation "'const' v <- c ;; k" := (bind c (fun v => k))
  (at level 10, v name, c at level 100, k at level 200,
   format "'[v' 'const'  v  <-  c ;; '/' k ']'") : js_scope.

(** One entry [{ field = dflt }] of a destructuring pattern: the property is
    read, and the default is taken when it is undefined. *)
Definition destructure {S X : Type} (field : S -> option X) (dflt : X) : Eff S X :=
  fun obj => (match field obj with Some v => v | None => dflt end, obj).

Section KeplerianOrbit.

Context {num : Type} {numOps : Number num} {Math : MathObject num}.
Local Open Scope js_scope.

(** The loop [for (let i = 0; i < 6; i++) { E = M + eccentricity * Math.sin(E); }],
    entered with the counter at [i] and the variable at [E]. *)
Equations? keplerLoop (M eccentricity : num) (i : nat) (E : num) : num by wf (6 - i)%nat lt :=
keplerLoop M eccentricity i E with lt_dec i 6 := {
  | left _ => keplerLoop M eccentricity (S i) (M + eccentricity * Math_sin E);
  | right _ => E }.
Proof. change (6 - S i < 6 - i)%nat. lia. Qed.

Definition getOrbitalPosition (elements : OrbitalElements num) (time : num)
  : Vector3 num * OrbitalElements num :=
  (const semiMajorAxis <- destructure semiMajorAxis #10;;
   const eccentricity <- destructure eccentricity #0;;
   const inclination <- destructure inclination #0;;
   const longitudeOfAscendingNode <- destructure longitudeOfAscendingNode #0;;
   const argumentOfPeriapsis <- destructure argumentOfPeriapsis #0;;
   const meanAnomalyAtEpoch <- destructure meanAnomalyAtEpoch #0;;
   const orbitalPeriod <- destructure orbitalPeriod #1;;

   (* Calculate mean anomaly at current time *)
   let M := meanAnomalyAtEpoch + (#2 * Math_PI * time) / orbitalPeriod in

   (* Solve Kepler's equation for eccentric anomaly *)
   let E := keplerLoop M eccentricity 0 M in

   (* Calculate true anomaly *)
   let nu := #2 * Math_atan2
                    (Math_sqrt (#1 + eccentricity) * Math_sin (E / #2))
                    (Math_sqrt (#1 - eccentricity) * Math_cos (E / #2)) in

   (* Calculate distance from focus *)
   let r := semiMajorAxis * (#1 - eccentricity * Math_cos E) in

   (* Position in orbital plane *)
   let xOrb := r * Math_cos nu in
   let yOrb := r * Math_sin nu in

   (* Rotation matrix components *)
   let cosO := Math_cos longitudeOfAscendingNode in
   let sinO := Math_sin longitudeOfAscendingNode in
   let cosI := Math_cos inclination in
   let sinI := Math_sin inclination in
   let cosW := Math_cos argumentOfPeriapsis in
   let sinW := Math_sin argumentOfPeriapsis in

   (* Transform to 3D space *)
   let x := xOrb * (cosO * cosW - sinO * sinW * cosI) -
            yOrb * (cosO * sinW + sinO * cosW * cosI) in
   let y := xOrb * (sinO * cosW + cosO * sinW * cosI) -
            yOrb * (sinO * sinW - cosO * cosW * cosI) in
   let z := xOrb * (sinW * sinI) + yOrb * (cosW * sinI) in

   ret (mkVector3 x y z)) elements.

(** [getOrbitalVelocity(elements, time, mu = 1)]; an omitted [mu] is [None]. *)
Definition getOrbitalVelocity (elements : OrbitalElements num) (time : num) (mu : option num)
  : Vector3 num * OrbitalElements num :=
  (let mu := match mu with Some v => v | None => #1 end in
   let dt := lit 1 3 in
   const pos1 <- (fun elements => getOrbitalPosition elements time);;
   const pos2 <- (fun elements => getOrbitalPosition elements (time + dt));;
   ret {| x := (pos2.(x) - pos1.(x)) / dt;
          y := (pos2.(y) - pos1.(y)) / dt;
          z := (pos2.(z) - pos1.(z)) / dt |}) elements.

Definition calculatePeriod (a mu : num) : num :=
  #2 * Math_PI * Math_sqrt ((a * a * a) / mu).

End KeplerianOrbit.

(** ** Double precision: the arithmetic of the engine *)

Module Binary64.

Local Open Scope float_scope.

(** The double nearest to an integer. *)
Definition of_Z (n : Z) : float := SF2Prim (binary_normalize prec emax n 0%Z false).

(** A decimal literal [m * 10^-k].  For [|m| < 2^53] and [k <= 22] both [m]
    and [10^k] are doubles, and their correctly rounded quotient is the
    double nearest to the literal; every literal of the two modules is in
    that range. *)
Definition literal (m : Z) (k : nat) : float :=
  PrimFloat.div (of_Z m) (of_Z (10 ^ Z.of_nat k)).

#[export] Instance number : Number float := {|
  add := PrimFloat.add;
  sub := PrimFloat.sub;
  mul := PrimFloat.mul;
  div := PrimFloat.div;
  Math_sqrt := PrimFloat.sqrt;
  strictEq := PrimFloat.eqb;
  lit := literal
|}.

(** The same numbers with another operation in the place of [/]; used to
    say that a result does not depend on any division. *)
Definition numberWithDiv (d : float -> float -> float) : Number float := {|
  add := PrimFloat.add;
  sub := PrimFloat.sub;
  mul := PrimFloat.mul;
  div := d;
  Math_sqrt := PrimFloat.sqrt;
  strictEq := PrimFloat.eqb;
  lit := literal
|}.

(** [Math.PI] is the double nearest to pi.  The trigonometric members are
    whatever the engine provides. *)
Definition mathObject (sin cos : float -> float) (atan2 : float -> float -> float)
  : MathObject float := {|
  Math_sin := sin;
  Math_cos := cos;
  Math_atan2 := atan2;
  Math_PI := 0x1.921fb54442d18p+1
|}.

(** [a] is the negation of [b] as [===] sees it, or both are NaN. *)
Definition negates (a b : float) : bool :=
  PrimFloat.eqb a (PrimFloat.opp b) || (is_nan a && is_nan b).

Definition negates3 (v w : Vector3 float) : bool :=
  negates v.(x) w.(x) && negates v.(y) w.(y) && negates v.(z) w.(z).

(** On the specification of the format: one value is the negation of the
    other, or both are zeros. *)
Definition SFnegates (u v : spec_float) : Prop :=
  v = SFopp u \/ ((exists s, u = S754_zero s) /\ (exists s, v = S754_zero s)).

(** Neither NaN nor an infinity, in every component. *)
Definition finite3 (v : Vector3 float) : bool :=
  is_finite v.(x) && is_finite v.(y) && is_finite v.(z).

(** Component-wise [===]. *)
Definition strictEq3 (v w : Vector3 float) : bool :=
  PrimFloat.eqb v.(x) w.(x) && PrimFloat.eqb v.(y) w.(y) && PrimFloat.eqb v.(z) w.(z).


(** Positions used below. *)
Definition origin : Vector3 float := mkVector3 0 0 0.
Definition unitX : Vector3 float := mkVector3 1 0 0.
Definition atInfinity : Vector3 float := mkVector3 infinity 0 0.


End Binary64.

(** ** Exact arithmetic: the real numbers *)

(** Division by zero and the square root of a negative number have no
    value in exact arithmetic (the library gives them 0); the theorems below
    exclude them by hypothesis wherever the code could reach them. *)
Module Exact.

Local Open Scope R_scope.

Definition strictEquals (a b : R) : bool :=
  if Req_dec_T a b then true else false.

Definition literal (m : Z) (k : nat) : R := IZR m / 10 ^ k.

(** The angle of the point [(x, y)], in [(-PI, PI]], as [Math.atan2(y, x)]
    is specified (without the signed zeros). *)
Definition atan2 (y x : R) : R :=
  if Rlt_dec 0 x then atan (y / x)
  else if Rlt_dec x 0 then
    if Rle_dec 0 y then atan (y / x) + PI else atan (y / x) - PI
  else if Rlt_dec 0 y then PI / 2
  else if Rlt_dec y 0 then - (PI / 2)
  else 0.

#[export] Instance number : Number R := {|
  add := Rplus;
  sub := Rminus;
  mul := Rmult;
  div := Rdiv;
  Math_sqrt := sqrt;
  strictEq := strictEquals;
  lit := literal
|}.

#[export] Instance mathObject : MathObject R := {|
  Math_sin := sin;
  Math_cos := cos;
  Math_atan2 := atan2;
  Math_PI := PI
|}.

(** Euclidean distance from the origin. *)
Definition norm (v : Vector3 R) : R :=
  sqrt (v.(x) * v.(x) + v.(y) * v.(y) + v.(z) * v.(z)).

Definition scale (k : R) (v : Vector3 R) : Vector3 R :=
  {| x := k * v.(x); y := k * v.(y); z := k * v.(z) |}.

Definition minus (v w : Vector3 R) : Vector3 R :=
  {| x := v.(x) - w.(x); y := v.(y) - w.(y); z := v.(z) - w.(z) |}.

Definition negate (v : Vector3 R) : Vector3 R :=
  {| x := - v.(x); y := - v.(y); z := - v.(z) |}.

(** The scenario of the specification:
    [{semiMajorAxis: 100, eccentricity: 0, orbitalPeriod: 365}]. *)
Definition scenario : OrbitalElements R :=
  {| semiMajorAxis := Some 100;
     eccentricity := Some 0;
     inclination := None;
     longitudeOfAscendingNode := None;
     argumentOfPeriapsis := None;
     meanAnomalyAtEpoch := None;
     orbitalPeriod := Some 365 |}.

(** An eccentric, inclined orbit:
    [{semiMajorAxis: 100, eccentricity: 0.5, inclination: 1, orbitalPeriod: 365}]. *)
Definition eccentricScenario : OrbitalElements R :=
  {| semiMajorAxis := Some 100;
     eccentricity := Some (1 / 2);
     inclination := Some 1;
     longitudeOfAscendingNode := None;
     argumentOfPeriapsis := None;
     meanAnomalyAtEpoch := None;
     orbitalPeriod := Some 365 |}.

End Exact.

(** ** Entities: Planet.js and Spacecraft.js *)

(** The order and absolute-value members of the language that
    [Spacecraft.update] uses: unary minus, [<], [Math.min], [Math.max] and
    [Math.abs]. *)
Class MathCompare (num : Type) : Type := {
  neg : num -> num;
  lessThan : num -> num -> bool;
  Math_min : num -> num -> num;
  Math_max : num -> num -> num;
  Math_abs : num -> num
}.

Set Implicit Arguments.

(** What the entities use of the 3D object that the rendering library
    creates for them: its [position] and its [rotation] (Euler angles). *)
Record Object3D (num : Type) : Type := mkObject3D {
  position : Vector3 num;
  rotation : Vector3 num
}.

(** The document, as far as the HUD goes: the text of each element that
    exists, by id. *)
Definition Document : Type := string -> option string.

(** [document.getElementById(id)] followed, when the element exists, by an
    assignment to its [textContent]. *)
Definition setTextContent (id : string) (text : string) (doc : Document) : Document :=
  fun k => if String.eqb k id
           then match doc k with Some _ => Some text | None => None end
           else doc k.

Section Truthiness.

Context {num : Type} {numOps : Number num}.
Local Open Scope js_scope.

(** [v.y += d] *)
Definition increaseY (v : Vector3 num) (d : num) : Vector3 num :=
  {| x := v.(x); y := v.(y) + d; z := v.(z) |}.

(** A number is falsy when it is [0], [-0] or NaN. *)
Definition truthy (v : num) : bool := (v === v) && negb (v === #0).

(** [a || b] where [a] is a number or undefined and [b] a number. *)
Definition orElse (a : option num) (b : num) : num :=
  match a with
  | Some v => if truthy v then v else b
  | None => b
  end.

(** [a || b] where both are numbers or undefined. *)
Definition orElseOption (a b : option num) : option num :=
  match a with
  | Some v => if truthy v then Some v else b
  | None => b
  end.

End Truthiness.

(** The [config] argument of [new Planet(config)]: every property is
    optional. *)
Module PlanetConfig.

Record t (num : Type) : Type := make {
  name : option string;
  radius : option num;
  mass : option num;
  semiMajorAxis : option num;
  orbitRadius : option num;
  eccentricity : option num;
  inclination : option num;
  longitudeOfAscendingNode : option num;
  argumentOfPeriapsis : option num;
  meanAnomalyAtEpoch : option num;
  orbitalPeriod : option num;
  orbitSpeed : option num;
  rotationSpeed : option num;
  hasRings : option bool;
  color : option num;
  initialPosition : option num
}.

End PlanetConfig.

Module Planet.

Record t (num : Type) : Type := make {
  name : string;
  radius : num;
  mass : num;
  semiMajorAxis : num;
  eccentricity : num;
  inclination : num;
  longitudeOfAscendingNode : num;
  argumentOfPeriapsis : num;
  meanAnomalyAtEpoch : num;
  orbitalPeriod : num;
  rotationSpeed : num;
  hasRings : bool;
  color : num;
  orbitAngle : num;
  object : option (Object3D num)
}.

Section Methods.

Context {num : Type} {numOps : Number num} {Math : MathObject num}.
Local Open Scope js_scope.

(** The property assignments of the constructor.  The 3D object that
    [_createObject] builds with the rendering library is a parameter. *)
Definition constructor (config : PlanetConfig.t num) (object3D : option (Object3D num)) : t num :=
  {| name := match PlanetConfig.name config with
             | Some s => if String.eqb s "" then "Unknown Planet"%string else s
             | None => "Unknown Planet"%string
             end;
     radius := orElse (PlanetConfig.radius config) #1;
     mass := orElse (PlanetConfig.mass config) #1;
     (* Keplerian orbital elements (with fallback for legacy configs) *)
     semiMajorAxis :=
       orElse (orElseOption (PlanetConfig.semiMajorAxis config)
                            (PlanetConfig.orbitRadius config)) #10;
     eccentricity := match PlanetConfig.eccentricity config with
                     | Some v => v
                     | None => #0
                     end;
     inclination := orElse (PlanetConfig.inclination config) #0;
     longitudeOfAscendingNode := orElse (PlanetConfig.longitudeOfAscendingNode config) #0;
     argumentOfPeriapsis := orElse (PlanetConfig.argumentOfPeriapsis config) #0;
     meanAnomalyAtEpoch := orElse (PlanetConfig.meanAnomalyAtEpoch config) #0;
     orbitalPeriod :=
       orElse (orElseOption (PlanetConfig.orbitalPeriod config)
                            (PlanetConfig.orbitSpeed config)) #1;
     rotationSpeed := orElse (PlanetConfig.rotationSpeed config) (lit 5 1);
     hasRings := match PlanetConfig.hasRings config with
                 | Some b => b
                 | None => false
                 end;
     color := orElse (PlanetConfig.color config) #3368703;
     (* Orbital position *)
     orbitAngle := orElse (PlanetConfig.initialPosition config) #0;
     object := object3D |}.

(** The planet after [this.orbitAngle = a] and [this.object = o]. *)
Definition moved (this : t num) (a : num) (o : Object3D num) : t num :=
  {| name := this.(name);
     radius := this.(radius);
     mass := this.(mass);
     semiMajorAxis := this.(semiMajorAxis);
     eccentricity := this.(eccentricity);
     inclination := this.(inclination);
     longitudeOfAscendingNode := this.(longitudeOfAscendingNode);
     argumentOfPeriapsis := this.(argumentOfPeriapsis);
     meanAnomalyAtEpoch := this.(meanAnomalyAtEpoch);
     orbitalPeriod := this.(orbitalPeriod);
     rotationSpeed := this.(rotationSpeed);
     hasRings := this.(hasRings);
     color := this.(color);
     orbitAngle := a;
     object := Some o |}.

Definition update (this : t num) (deltaTime : num) : t num :=
  match this.(object) with
  | None => this
  | Some obj =>
    (* Simple circular orbit *)
    let orbitAngle := this.(orbitAngle) + (deltaTime / this.(orbitalPeriod)) * lit 1 1 in
    let x := Math_cos orbitAngle * this.(semiMajorAxis) in
    let z := Math_sin orbitAngle * this.(semiMajorAxis) in
    let position := mkVector3 x #0 z in
    (* Rotate the planet on its axis *)
    let rotation := increaseY obj.(rotation) (this.(rotationSpeed) * deltaTime) in
    moved this orbitAngle {| position := position; rotation := rotation |}
  end.

Definition getRadius (this : t num) : num := this.(radius).

Definition getMass (this : t num) : num := this.(mass).

End Methods.

End Planet.

(** The [config] argument of [new Spacecraft(config)]. *)
Module SpacecraftConfig.

Record t (num : Type) : Type := make {
  name : option string;
  maxSpeed : option num;
  acceleration : option num;
  rotationSpeed : option num
}.

End SpacecraftConfig.

Module Spacecraft.

Record t (num : Type) : Type := make {
  name : string;
  speed : num;
  maxSpeed : num;
  acceleration : num;
  rotationSpeed : num;
  velocity : Vector3 num;
  isAccelerating : bool;
  isDecelerating : bool;
  isTurningLeft : bool;
  isTurningRight : bool;
  isPitchingUp : bool;
  isPitchingDown : bool;
  isRollingLeft : bool;
  isRollingRight : bool;
  object : option (Object3D num)
}.

Section Methods.

Context {num : Type} {numOps : Number num} {Math : MathObject num}
        {compare : MathCompare num}.
Local Open Scope js_scope.

(** From the rendering library: the vector [(0, 0, -1)] turned by the
    orientation of an object with the given Euler angles. *)
Variable forward : Vector3 num -> Vector3 num.

(** [Number.prototype.toFixed]. *)
Variable toFixed : num -> nat -> string.

(** The property assignments of the constructor.  The 3D object that
    [_createObject] builds with the rendering library is a parameter. *)
Definition constructor (config : SpacecraftConfig.t num) (object3D : option (Object3D num))
  : t num :=
  {| name := match SpacecraftConfig.name config with
             | Some s => if String.eqb s "" then "Spacecraft"%string else s
             | None => "Spacecraft"%string
             end;
     speed := #0;
     maxSpeed := orElse (SpacecraftConfig.maxSpeed config) #2;
     acceleration := orElse (SpacecraftConfig.acceleration config) (lit 5 2);
     rotationSpeed := orElse (SpacecraftConfig.rotationSpeed config) (lit 2 2);
     (* Movement state *)
     velocity := {| x := #0; y := #0; z := #0 |};
     isAccelerating := false;
     isDecelerating := false;
     isTurningLeft := false;
     isTurningRight := false;
     isPitchingUp := false;
     isPitchingDown := false;
     isRollingLeft := false;
     isRollingRight := false;
     object := object3D |}.

(** The spacecraft after [this.speed = s] and [this.object = o]. *)
Definition moved (this : t num) (s : num) (o : Object3D num) : t num :=
  {| name := this.(name);
     speed := s;
     maxSpeed := this.(maxSpeed);
     acceleration := this.(acceleration);
     rotationSpeed := this.(rotationSpeed);
     velocity := this.(velocity);
     isAccelerating := this.(isAccelerating);
     isDecelerating := this.(isDecelerating);
     isTurningLeft := this.(isTurningLeft);
     isTurningRight := this.(isTurningRight);
     isPitchingUp := this.(isPitchingUp);
     isPitchingDown := this.(isPitchingDown);
     isRollingLeft := this.(isRollingLeft);
     isRollingRight := this.(isRollingRight);
     object := Some o |}.

Definition _updateHUD (this : t num) (obj : Object3D num) (doc : Document) : Document :=
  (* Update speed display *)
  let doc := setTextContent "speed-value" (toFixed (Math_abs (this.(speed) * #100)) 0) doc in
  (* Update coordinates *)
  let pos := obj.(position) in
  let doc := setTextContent "x-coord" (toFixed pos.(x) 1) doc in
  let doc := setTextContent "y-coord" (toFixed pos.(y) 1) doc in
  let doc := setTextContent "z-coord" (toFixed pos.(z) 1) doc in
  doc.

Definition update (this : t num) (deltaTime : num) (doc : Document) : t num * Document :=
  match this.(object) with
  | None => (this, doc)
  | Some obj =>
    (* Handle acceleration/deceleration *)
    let speed :=
      if this.(isAccelerating) then
        Math_min (this.(speed) + this.(acceleration)) this.(maxSpeed)
      else if this.(isDecelerating) then
        Math_max (this.(speed) - this.(acceleration)) (neg this.(maxSpeed) * lit 5 1)
      else
        (* Gradual slowdown *)
        let speed := this.(speed) * lit 99 2 in
        if lessThan (Math_abs speed) (lit 1 3) then #0 else speed in
    (* Handle rotation *)
    let rx := obj.(rotation).(x) in
    let ry := obj.(rotation).(y) in
    let rz := obj.(rotation).(z) in
    let ry := if this.(isTurningLeft) then ry + this.(rotationSpeed) else ry in
    let ry := if this.(isTurningRight) then ry - this.(rotationSpeed) else ry in
    let rx := if this.(isPitchingUp)
              then Math_min (rx + this.(rotationSpeed) * lit 5 1) (Math_PI / #4)
              else rx in
    let rx := if this.(isPitchingDown)
              then Math_max (rx - this.(rotationSpeed) * lit 5 1) (neg Math_PI / #4)
              else rx in
    let rz := if this.(isRollingLeft) then rz + this.(rotationSpeed) * lit 5 1 else rz in
    let rz := if this.(isRollingRight) then rz - this.(rotationSpeed) * lit 5 1 else rz in
    let rotation := {| x := rx; y := ry; z := rz |} in
    (* Calculate movement direction from rotation *)
    let direction := forward rotation in
    (* Update position *)
    let position :=
      {| x := obj.(position).(x) + direction.(x) * speed * deltaTime * #60;
         y := obj.(position).(y) + direction.(y) * speed * deltaTime * #60;
         z := obj.(position).(z) + direction.(z) * speed * deltaTime * #60 |} in
    let obj := {| position := position; rotation := rotation |} in
    let this := moved this speed obj in
    (* Update HUD *)
    (this, _updateHUD this obj doc)
  end.

Definition getSpeed (this : t num) : num := this.(speed).

End Methods.

End Spacecraft.

Unset Implicit Arguments.

(** [n] frames: [n] updates of the spacecraft with the same frame time,
    each on the document the one before left. *)
Definition frames {num : Type} {numOps : Number num} {Math : MathObject num}
  {compare : MathCompare num}
  (forward : Vector3 num -> Vector3 num) (toFixed : num -> nat -> string)
  (n : nat) (this : Spacecraft.t num) (deltaTime : num) (doc : Document)
  : Spacecraft.t num * Document :=
  Nat.iter n (fun state => Spacecraft.update forward toFixed (fst state) deltaTime (snd state))
           (this, doc).

(** The position of a planet, if it has a 3D object. *)
Definition planetPosition {num : Type} (planet : Planet.t num) : option (Vector3 num) :=
  match Planet.object planet with
  | Some obj => Some obj.(position)
  | None => None
  end.

(** The order operations in the two arithmetics.  In double precision
    [Math.min] and [Math.max] return NaN when an argument is NaN and order
    [-0] below [0]. *)
Module Compare.

#[export] Instance exact : MathCompare R := {|
  neg := Ropp;
  lessThan a b := if Rlt_dec a b then true else false;
  Math_min := Rmin;
  Math_max := Rmax;
  Math_abs := Rabs
|}.

#[export] Instance binary64 : MathCompare float := {|
  neg := PrimFloat.opp;
  lessThan := PrimFloat.ltb;
  Math_min a b :=
    if is_nan a || is_nan b then nan
    else if PrimFloat.ltb a b then a
    else if PrimFloat.ltb b a then b
    else if get_sign a then a else b;
  Math_max a b :=
    if is_nan a || is_nan b then nan
    else if PrimFloat.ltb a b then b
    else if PrimFloat.ltb b a then a
    else if get_sign a then b else a;
  Math_abs := PrimFloat.abs
|}.

End Compare.

(** Entities used below: a 3D object at rest at the origin, and a planet
    [{name: 'Earth', semiMajorAxis: 100, orbitalPeriod: 365}] that has it. *)
Definition restingObject : Object3D R :=
  {| position := mkVector3 0%R 0%R 0%R; rotation := mkVector3 0%R 0%R 0%R |}.

Definition earth : Planet.t R :=
  Planet.make "Earth" 1%R 1%R 100%R 0%R 0%R 0%R 0%R 0%R 365%R (1 / 2)%R false 3368703%R 0%R
              (Some restingObject).

(** A spacecraft with the default limits, moving at speed 1 with the
    accelerate and pitch-up keys held. *)
Definition cruiser : Spacecraft.t R :=
  Spacecraft.make "Spacecraft" 1%R 2%R (5 / 100)%R (2 / 100)%R (mkVector3 0%R 0%R 0%R)
                  true false false false true false false false (Some restingObject).

(** The same spacecraft with no key held. *)
Definition drifter : Spacecraft.t R :=
  Spacecraft.make "Spacecraft" 1%R 2%R (5 / 100)%R (2 / 100)%R (mkVector3 0%R 0%R 0%R)
                  false false false false false false false false (Some restingObject).

(** ** The formulas of the specification *)

Section Specification.

Context {num : Type} {numOps : Number num} {Math : MathObject num}.
Local Open Scope js_scope.

(** The value of a property, or the stated default when it is absent. *)
Definition valueOr (field : option num) (dflt : num) : num :=
  match field with Some v => v | None => dflt end.

(** The record with every absent field replaced by its stated default:
    a=10, e=0, i=0, Omega=0, omega=0, M0=0, T=1. *)
Definition withDefaults (elements : OrbitalElements num) : OrbitalElements num :=
  {| semiMajorAxis := Some (valueOr elements.(semiMajorAxis) #10);
     eccentricity := Some (valueOr elements.(eccentricity) #0);
     inclination := Some (valueOr elements.(inclination) #0);
     longitudeOfAscendingNode := Some (valueOr elements.(longitudeOfAscendingNode) #0);
     argumentOfPeriapsis := Some (valueOr elements.(argumentOfPeriapsis) #0);
     meanAnomalyAtEpoch := Some (valueOr elements.(meanAnomalyAtEpoch) #0);
     orbitalPeriod := Some (valueOr elements.(orbitalPeriod) #1) |}.

(** Mean anomaly at [time]: [M = M0 + 2 PI time / T]. *)
Definition meanAnomaly_spec (M0 T time : num) : num :=
  M0 + (#2 * Math_PI * time) / T.

(** The fixed-point map of Kepler's equation, [E |-> M + e sin E]. *)
Definition keplerStep (M e : num) (E : num) : num := M + e * Math_sin E.

(** Eccentric anomaly: the 6-fold iterate of the map, started at [M]. *)
Definition eccentricAnomaly_spec (M e : num) : num :=
  Nat.iter 6 (keplerStep M e) M.

(** True anomaly: [nu = 2 atan2(sqrt(1+e) sin(E/2), sqrt(1-e) cos(E/2))]. *)
Definition trueAnomaly_spec (e E : num) : num :=
  #2 * Math_atan2 (Math_sqrt (#1 + e) * Math_sin (E / #2))
                  (Math_sqrt (#1 - e) * Math_cos (E / #2)).

(** Radius: [r = a (1 - e cos E)]. *)
Definition radius_spec (a e E : num) : num := a * (#1 - e * Math_cos E).

(** The three-angle rotation of the orbital-plane point [(xOrb, yOrb)]. *)
Definition rotation_spec (Omega i omega xOrb yOrb : num) : Vector3 num :=
  let cosO := Math_cos Omega in
  let sinO := Math_sin Omega in
  let cosI := Math_cos i in
  let sinI := Math_sin i in
  let cosW := Math_cos omega in
  let sinW := Math_sin omega in
  {| x := xOrb * (cosO * cosW - sinO * sinW * cosI) - yOrb * (cosO * sinW + sinO * cosW * cosI);
     y := xOrb * (sinO * cosW + cosO * sinW * cosI) - yOrb * (sinO * sinW - cosO * cosW * cosI);
     z := xOrb * (sinW * sinI) + yOrb * (cosW * sinI) |}.

(** Steps 4 to 7 of the algorithm, from the eccentric anomaly [E] on. *)
Definition position_spec (a e i Omega omega E : num) : Vector3 num :=
  let nu := trueAnomaly_spec e E in
  let r := radius_spec a e E in
  rotation_spec Omega i omega (r * Math_cos nu) (r * Math_sin nu).

(** Forward difference of two positions over the step [dt]. *)
Definition forwardDifference (p q : Vector3 num) (dt : num) : Vector3 num :=
  {| x := (q.(x) - p.(x)) / dt;
     y := (q.(y) - p.(y)) / dt;
     z := (q.(z) - p.(z)) / dt |}.

(** Kepler's third law: [T = 2 PI sqrt(a^3 / mu)]. *)
Definition period_spec (a mu : num) : num :=
  #2 * Math_PI * Math_sqrt ((a * a * a) / mu).

End Specification.

(** * Properties that hold in every arithmetic *)

Section Generic.

Context {num : Type} {numOps : Number num} {Math : MathObject num}.
Local Open Scope js_scope.

(** The loop entered at counter [i] runs the body [6 - i] more times. *)
Lemma keplerLoop_iter (M e : num) (i : nat) (E : num) :
  keplerLoop M e i E = Nat.iter (6 - i) (keplerStep M e) E.
Proof.
  funelim (keplerLoop M e i E).
  - match goal with IH : keplerLoop _ _ (S i) _ = Nat.iter _ _ _ |- _ => rewrite IH end.
    replace (6 - i)%nat with (S (6 - S i)) by lia.
    rewrite Nat.iter_succ_r. reflexivity.
  - replace (6 - i)%nat with 0%nat by lia. reflexivity.
Qed.

(** Neither function writes to the object it is given. *)
Lemma getOrbitalPosition_reads_only (elements : OrbitalElements num) (time : num) :
  snd (getOrbitalPosition elements time) = elements.
Proof. reflexivity. Qed.

Lemma getOrbitalVelocity_reads_only (elements : OrbitalElements num) (time : num)
  (mu : option num) :
  snd (getOrbitalVelocity elements time mu) = elements.
Proof. reflexivity. Qed.

(** The position returned, with the loop replaced by the iterate. *)
Lemma getOrbitalPosition_unfolded (elements : OrbitalElements num) (time : num) :
  fst (getOrbitalPosition elements time) =
  position_spec (valueOr elements.(semiMajorAxis) #10)
                (valueOr elements.(eccentricity) #0)
                (valueOr elements.(inclination) #0)
                (valueOr elements.(longitudeOfAscendingNode) #0)
                (valueOr elements.(argumentOfPeriapsis) #0)
                (eccentricAnomaly_spec
                   (meanAnomaly_spec (valueOr elements.(meanAnomalyAtEpoch) #0)
                                     (valueOr elements.(orbitalPeriod) #1) time)
                   (valueOr elements.(eccentricity) #0)).
Proof.
  unfold eccentricAnomaly_spec.
  rewrite <- (keplerLoop_iter _ _ 0). reflexivity.
Qed.

(** C2: for every elements record and time, [getOrbitalPosition] takes the
    mean anomaly [M = M0 + 2 PI time / T] as it is (no reduction into
    [[0, 2 PI)]), and its loop leaves in [E] exactly the 6-fold iterate of
    [E |-> M + e sin E] started at [M]: six iterations whatever the
    values are, with no convergence test and no early exit.  The position
    returned is the one computed from that [E]. *)
Theorem getOrbitalPosition_six_iterations (elements : OrbitalElements num) (time : num) :
  let e := valueOr elements.(eccentricity) #0 in
  let M := meanAnomaly_spec (valueOr elements.(meanAnomalyAtEpoch) #0)
                            (valueOr elements.(orbitalPeriod) #1) time in
  keplerLoop M e 0 M = keplerStep M e (keplerStep M e (keplerStep M e
                         (keplerStep M e (keplerStep M e (keplerStep M e M)))))
  /\ fst (getOrbitalPosition elements time) =
     position_spec (valueOr elements.(semiMajorAxis) #10) e
                   (valueOr elements.(inclination) #0)
                   (valueOr elements.(longitudeOfAscendingNode) #0)
                   (valueOr elements.(argumentOfPeriapsis) #0)
                   (eccentricAnomaly_spec M e).
Proof.
  intros e M. split.
  - rewrite keplerLoop_iter. reflexivity.
  - apply getOrbitalPosition_unfolded.
Qed.

(** C3: for every elements record and time, once the eccentric anomaly [E]
    has been found, [getOrbitalPosition] returns the result of the stated
    pipeline: true anomaly, radius, orbital-plane coordinates and the
    three-angle rotation, each by the stated formula. *)
Theorem getOrbitalPosition_pipeline (elements : OrbitalElements num) (time : num) :
  let a := valueOr elements.(semiMajorAxis) #10 in
  let e := valueOr elements.(eccentricity) #0 in
  let i := valueOr elements.(inclination) #0 in
  let Omega := valueOr elements.(longitudeOfAscendingNode) #0 in
  let omega := valueOr elements.(argumentOfPeriapsis) #0 in
  let M := valueOr elements.(meanAnomalyAtEpoch) #0
           + (#2 * Math_PI * time) / valueOr elements.(orbitalPeriod) #1 in
  let E := keplerLoop M e 0 M in
  let nu := #2 * Math_atan2 (Math_sqrt (#1 + e) * Math_sin (E / #2))
                            (Math_sqrt (#1 - e) * Math_cos (E / #2)) in
  let r := a * (#1 - e * Math_cos E) in
  let xOrb := r * Math_cos nu in
  let yOrb := r * Math_sin nu in
  let cosO := Math_cos Omega in
  let sinO := Math_sin Omega in
  let cosI := Math_cos i in
  let sinI := Math_sin i in
  let cosW := Math_cos omega in
  let sinW := Math_sin omega in
  fst (getOrbitalPosition elements time) = position_spec a e i Omega omega E
  /\ position_spec a e i Omega omega E =
     {| x := xOrb * (cosO * cosW - sinO * sinW * cosI) - yOrb * (cosO * sinW + sinO * cosW * cosI);
        y := xOrb * (sinO * cosW + cosO * sinW * cosI) - yOrb * (sinO * sinW - cosO * cosW * cosI);
        z := xOrb * (sinW * sinI) + yOrb * (cosW * sinI) |}.
Proof.
  intros. split; reflexivity.
Qed.

(** C6: for every elements record, time and [mu],
    [getOrbitalVelocity(elements, time, mu)] is the component-wise forward
    difference [(pos(time + 0.001) - pos(time)) / 0.001] of
    [getOrbitalPosition], with the fixed step 0.001; [mu], given or
    omitted, has no effect on the result. *)
Theorem getOrbitalVelocity_forward_difference
  (elements : OrbitalElements num) (time : num) (mu : option num) :
  fst (getOrbitalVelocity elements time mu) =
    forwardDifference (fst (getOrbitalPosition elements time))
                      (fst (getOrbitalPosition elements (time + lit 1 3)))
                      (lit 1 3)
  /\ forall mu' : option num,
       getOrbitalVelocity elements time mu = getOrbitalVelocity elements time mu'.
Proof.
  split.
  - unfold getOrbitalVelocity, bind, ret.
    rewrite (surjective_pairing (getOrbitalPosition elements time)).
    rewrite getOrbitalPosition_reads_only.
    rewrite (surjective_pairing (getOrbitalPosition elements (time + lit 1 3))).
    reflexivity.
  - intros mu'. reflexivity.
Qed.

(** C7: for every time, [getOrbitalPosition] on a record with absent fields
    returns what it returns on the record in which each absent field has its
    default (a=10, e=0, i=0, Omega=0, omega=0, M0=0, T=1); and neither
    [getOrbitalPosition] nor [getOrbitalVelocity] changes the record: the
    object they leave is the object they were given. *)
Theorem getOrbitalPosition_defaults (elements : OrbitalElements num) (time : num) :
  fst (getOrbitalPosition elements time) =
    fst (getOrbitalPosition (withDefaults elements) time)
  /\ snd (getOrbitalPosition elements time) = elements
  /\ forall mu : option num, snd (getOrbitalVelocity elements time mu) = elements.
Proof.
  split; [ | split ].
  - destruct elements as [a e i Omega omega M0 T]. reflexivity.
  - apply getOrbitalPosition_reads_only.
  - intros mu. apply getOrbitalVelocity_reads_only.
Qed.

End Generic.

(** * Properties in exact arithmetic *)

Section ExactArithmetic.

Import Exact.
Local Open Scope R_scope.

(** Unfolds the interface at the [Exact] instance, leaving real arithmetic. *)
Ltac exact_ops :=
  cbn [add sub mul div Math_sqrt strictEq lit Math_sin Math_cos Math_atan2 Math_PI
       Exact.number Exact.mathObject x y z fst snd] in *;
  unfold Exact.literal in *;
  repeat rewrite pow_O in *; repeat rewrite Rdiv_1_r in *.

Lemma G_exact : @G R _ = 66743 / 10 ^ 15.
Proof. reflexivity. Qed.

Lemma G_positive : 0 < @G R _.
Proof.
  rewrite G_exact. apply Rdiv_lt_0_compat; [ lra | apply pow_lt; lra ].
Qed.

Lemma strictEquals_true (a b : R) : strictEquals a b = true <-> a = b.
Proof.
  unfold strictEquals. destruct (Req_dec_T a b); split; intros; congruence.
Qed.

Lemma strictEquals_false (a b : R) : strictEquals a b = false <-> a <> b.
Proof.
  unfold strictEquals. destruct (Req_dec_T a b); split; intros; congruence.
Qed.

Lemma sum_squares_nonneg (a b c : R) : 0 <= a * a + b * b + c * c.
Proof. nra. Qed.

Lemma sum_squares_zero (a b c : R) : a * a + b * b + c * c = 0 -> a = 0 /\ b = 0 /\ c = 0.
Proof. intros H. repeat split; nra. Qed.

(** The distance between two points is zero only when they coincide. *)
Lemma distance_zero (pos1 pos2 : Vector3 R) :
  norm (minus pos2 pos1) = 0 -> pos1 = pos2.
Proof.
  unfold norm, minus. cbn [x y z]. intros H.
  apply sqrt_eq_0 in H; [ | apply sum_squares_nonneg ].
  apply sum_squares_zero in H. destruct H as (Hx & Hy & Hz).
  destruct pos1 as [x1 y1 z1], pos2 as [x2 y2 z2]. cbn [x y z] in *.
  f_equal; lra.
Qed.

Lemma distance_positive (pos1 pos2 : Vector3 R) :
  pos1 <> pos2 -> 0 < norm (minus pos2 pos1).
Proof.
  intros Hne.
  destruct (Rle_lt_or_eq_dec 0 (norm (minus pos2 pos1))) as [Hlt | Heq].
  - apply sqrt_pos.
  - exact Hlt.
  - exfalso. apply Hne. apply distance_zero. symmetry. exact Heq.
Qed.





(** Exchanging the two bodies negates the force. *)
Lemma calculateForce_swap (m1 m2 : R) (pos1 pos2 : Vector3 R) :
  calculateForce m1 m2 pos1 pos2 = negate (calculateForce m2 m1 pos2 pos1).
Proof.
  unfold calculateForce. exact_ops.
  set (dx := pos2.(x) - pos1.(x)). set (dy := pos2.(y) - pos1.(y)).
  set (dz := pos2.(z) - pos1.(z)).
  replace (pos1.(x) - pos2.(x)) with (- dx) by (unfold dx; ring).
  replace (pos1.(y) - pos2.(y)) with (- dy) by (unfold dy; ring).
  replace (pos1.(z) - pos2.(z)) with (- dz) by (unfold dz; ring).
  replace (- dx * - dx + - dy * - dy + - dz * - dz)
    with (dx * dx + dy * dy + dz * dz) by ring.
  destruct (strictEquals (sqrt (dx * dx + dy * dy + dz * dz)) 0);
    unfold negate; cbn [x y z]; f_equal; unfold Rdiv; ring.
Qed.

(** At coinciding positions the force is the zero vector. *)
Lemma calculateForce_coincident (m1 m2 : R) (pos : Vector3 R) :
  calculateForce m1 m2 pos pos = {| x := 0; y := 0; z := 0 |}.
Proof.
  unfold calculateForce. exact_ops.
  rewrite !Rminus_diag, !Rmult_0_r, !Rplus_0_r, sqrt_0.
  replace (strictEquals 0 0) with true
    by (symmetry; apply strictEquals_true; reflexivity).
  reflexivity.
Qed.

(** [Math.atan2] returns the angle of the point it is given: on the unit
    circle, the cosine and sine of the angle are the coordinates. *)
Lemma atan2_unit_circle (s c : R) :
  s * s + c * c = 1 -> cos (atan2 s c) = c /\ sin (atan2 s c) = s.
Proof.
  intros Hunit.
  assert (Hatan : forall q : R, 0 < q -> q * q = c * c ->
            cos (atan (s / c)) = q /\ sin (atan (s / c)) = s / c * q).
  { intros q Hq Hqc.
    assert (Hc : c <> 0) by (intros ->; nra).
    assert (Hsqrt : sqrt (1 + (s / c)²) = / q).
    { replace (1 + (s / c)²) with (/ q * / q).
      - apply sqrt_square. apply Rlt_le, Rinv_0_lt_compat. exact Hq.
      - unfold Rsqr. field_simplify_eq; [ nra | split; [ exact Hc | lra ] ]. }
    rewrite cos_atan, sin_atan, Hsqrt. unfold Rdiv. rewrite Rinv_inv.
    split; ring. }
  unfold atan2.
  destruct (Rlt_dec 0 c) as [Hpos | Hnpos].
  - destruct (Hatan c) as [Hcos Hsin]; [ exact Hpos | reflexivity | ].
    rewrite Hcos, Hsin. split; [ reflexivity | field; lra ].
  - destruct (Rlt_dec c 0) as [Hneg | Hnneg].
    + destruct (Hatan (- c)) as [Hcos Hsin]; [ lra | ring | ].
      assert (Hc : c <> 0) by lra.
      destruct (Rle_dec 0 s).
      * rewrite neg_cos, neg_sin, Hcos, Hsin. split; field; exact Hc.
      * rewrite cos_minus, sin_minus, cos_PI, sin_PI, Hcos, Hsin.
        split; field; exact Hc.
    + assert (Hc : c = 0) by lra. subst c.
      destruct (Rlt_dec 0 s) as [Hs | Hns].
      * rewrite cos_PI2, sin_PI2. split; nra.
      * destruct (Rlt_dec s 0) as [Hs' | Hns'].
        -- rewrite cos_neg, sin_neg, cos_PI2, sin_PI2. split; nra.
        -- exfalso. assert (s = 0) by lra. subst s. lra.
Qed.

(** With eccentricity 0 the iteration stays at the mean anomaly. *)
Lemma eccentricAnomaly_circular (M : R) : eccentricAnomaly_spec M 0 = M.
Proof.
  unfold eccentricAnomaly_spec, keplerStep, Nat.iter. cbn [nat_rect]. exact_ops. ring.
Qed.

(** With eccentricity 0 the true anomaly is the eccentric anomaly, up to a
    whole number of turns: both have the same cosine and sine. *)
Lemma trueAnomaly_circular (E : R) :
  cos (trueAnomaly_spec 0 E) = cos E /\ sin (trueAnomaly_spec 0 E) = sin E.
Proof.
  unfold trueAnomaly_spec. exact_ops.
  rewrite Rplus_0_r, Rminus_0_r, sqrt_1, !Rmult_1_l.
  destruct (atan2_unit_circle (sin (E / 2)) (cos (E / 2))) as [Hcos Hsin].
  - apply (sin2_cos2 (E / 2)).
  - rewrite cos_2a, sin_2a, Hcos, Hsin.
    rewrite <- cos_2a, <- sin_2a.
    replace (2 * (E / 2)) with E by field. split; reflexivity.
Qed.

(** A circular orbit: the point at angle [E] of the circle of radius [a],
    rotated into the reference frame. *)
Lemma position_circular (a i Omega omega E : R) :
  position_spec a 0 i Omega omega E =
  rotation_spec Omega i omega (a * cos E) (a * sin E).
Proof.
  unfold position_spec.
  destruct (trueAnomaly_circular E) as [Hcos Hsin].
  exact_ops. rewrite Hcos, Hsin.
  unfold radius_spec. exact_ops.
  replace (a * (1 - 0 * cos E)) with a by ring. reflexivity.
Qed.

(** The rotation keeps the distance from the origin. *)
Lemma rotation_norm (Omega i omega xOrb yOrb : R) :
  norm (rotation_spec Omega i omega xOrb yOrb) = sqrt (xOrb * xOrb + yOrb * yOrb).
Proof.
  unfold norm, rotation_spec. exact_ops. f_equal.
  pose proof (sin2_cos2 Omega) as HO. pose proof (sin2_cos2 i) as HI.
  pose proof (sin2_cos2 omega) as HW. unfold Rsqr in *.
  set (cO := cos Omega) in *. set (sO := sin Omega) in *.
  set (cI := cos i) in *. set (sI := sin i) in *.
  set (cW := cos omega) in *. set (sW := sin omega) in *.
  nsatz.
Qed.

(** With eccentricity 0 the position is the point of the circle at the
    mean anomaly. *)
Lemma getOrbitalPosition_circular (elements : OrbitalElements R) (time : R) :
  valueOr elements.(eccentricity) (lit 0 0) = 0 ->
  fst (getOrbitalPosition elements time) =
  rotation_spec (valueOr elements.(longitudeOfAscendingNode) (lit 0 0))
                (valueOr elements.(inclination) (lit 0 0))
                (valueOr elements.(argumentOfPeriapsis) (lit 0 0))
                (valueOr elements.(semiMajorAxis) (lit 10 0)
                 * cos (meanAnomaly_spec (valueOr elements.(meanAnomalyAtEpoch) (lit 0 0))
                                         (valueOr elements.(orbitalPeriod) (lit 1 0)) time))
                (valueOr elements.(semiMajorAxis) (lit 10 0)
                 * sin (meanAnomaly_spec (valueOr elements.(meanAnomalyAtEpoch) (lit 0 0))
                                         (valueOr elements.(orbitalPeriod) (lit 1 0)) time)).
Proof.
  intros He.
  rewrite getOrbitalPosition_unfolded, He.
  rewrite eccentricAnomaly_circular. apply position_circular.
Qed.



(** The scenario of the specification: at the epoch the body is at
    [(100, 0, 0)], a quarter of a period later at [(0, 100, 0)]. *)
Example scenario_epoch :
  fst (getOrbitalPosition scenario 0) = {| x := 100; y := 0; z := 0 |}.
Proof.
  rewrite getOrbitalPosition_circular by reflexivity.
  unfold rotation_spec, meanAnomaly_spec. cbn [valueOr scenario semiMajorAxis
    longitudeOfAscendingNode inclination argumentOfPeriapsis meanAnomalyAtEpoch orbitalPeriod].
  exact_ops.
  replace (0 + 2 * PI * 0 / 365) with 0 by (unfold Rdiv; ring).
  rewrite cos_0, sin_0. f_equal; ring.
Qed.

Example scenario_quarter_period :
  fst (getOrbitalPosition scenario (365 / 4)) = {| x := 0; y := 100; z := 0 |}.
Proof.
  rewrite getOrbitalPosition_circular by reflexivity.
  unfold rotation_spec, meanAnomaly_spec. cbn [valueOr scenario semiMajorAxis
    longitudeOfAscendingNode inclination argumentOfPeriapsis meanAnomalyAtEpoch orbitalPeriod].
  exact_ops.
  replace (0 + 2 * PI * (365 / 4) / 365) with (PI / 2) by field.
  rewrite cos_0, sin_0, cos_PI2, sin_PI2. f_equal; ring.
Qed.

End ExactArithmetic.

(** * Properties in double precision *)

Section DoublePrecision.

Import Binary64.
Local Open Scope float_scope.

(** A finite double is a zero or a finite non-zero value. *)
Lemma finite_cases (a : float) :
  is_finite a = true ->
  (exists s, Prim2SF a = S754_zero s) \/ (exists s m e, Prim2SF a = S754_finite s m e).
Proof.
  unfold is_finite, is_nan, is_infinity.
  rewrite !eqb_spec, abs_spec.
  assert (Hinf : Prim2SF infinity = S754_infinity false) by (vm_compute; reflexivity).
  rewrite Hinf.
  destruct (Prim2SF a) as [s | s | | s m e]; intros H.
  - left. exists s. reflexivity.
  - exfalso. cbn in H. rewrite orb_true_r in H. discriminate.
  - exfalso. cbn in H. discriminate.
  - right. exists s, m, e. reflexivity.
Qed.

(** Two finite non-zero doubles are [===] only when they are the same. *)
Lemma SFeqb_finite (s1 s2 : bool) (m1 m2 : positive) (e1 e2 : Z) :
  SFeqb (S754_finite s1 m1 e1) (S754_finite s2 m2 e2) = true ->
  s1 = s2 /\ m1 = m2 /\ e1 = e2.
Proof.
  unfold SFeqb, SFcompare.
  destruct s1, s2; try discriminate;
    destruct (Z.compare e1 e2) eqn:He; try discriminate;
    destruct (Pos.compare_cont Eq m1 m2) eqn:Hm; try discriminate;
    intros _; apply Z.compare_eq in He; apply Pos.compare_eq in Hm; auto.
Qed.

(** The difference of two finite doubles that are [===] is a zero. *)
Lemma sub_strictEq_zero (a b : float) :
  is_finite a = true -> PrimFloat.eqb a b = true ->
  exists s, Prim2SF (PrimFloat.sub b a) = S754_zero s.
Proof.
  intros Hfin Heq. rewrite eqb_spec in Heq. rewrite sub_spec.
  destruct (finite_cases a Hfin) as [[s Ha] | [s [m [e Ha]]]]; rewrite Ha in *.
  - destruct (Prim2SF b) as [s' | s' | | s' m' e'].
    + destruct s, s'; eexists; reflexivity.
    + destruct s'; discriminate Heq.
    + discriminate Heq.
    + destruct s'; discriminate Heq.
  - destruct (Prim2SF b) as [s' | s' | | s' m' e'].
    + destruct s; discriminate Heq.
    + destruct s, s'; discriminate Heq.
    + discriminate Heq.
    + apply SFeqb_finite in Heq. destruct Heq as (-> & -> & ->).
      exists false. unfold SF64sub, SFsub. rewrite Z.sub_diag. reflexivity.
Qed.

(** When the three differences are zeros, the guard [r === 0] holds. *)
Lemma guard_taken (dx dy dz : float) :
  (exists s, Prim2SF dx = S754_zero s) ->
  (exists s, Prim2SF dy = S754_zero s) ->
  (exists s, Prim2SF dz = S754_zero s) ->
  PrimFloat.eqb
    (PrimFloat.sqrt (PrimFloat.add (PrimFloat.add (PrimFloat.mul dx dx) (PrimFloat.mul dy dy))
                                   (PrimFloat.mul dz dz)))
    (literal 0 0) = true.
Proof.
  intros [sx Hx] [sy Hy] [sz Hz].
  assert (Hzero : Prim2SF (literal 0 0) = S754_zero false) by (vm_compute; reflexivity).
  rewrite eqb_spec, sqrt_spec, !add_spec, !mul_spec, Hx, Hy, Hz, Hzero.
  destruct sx, sy, sz; reflexivity.
Qed.

(** Rounding does not look at the sign. *)
Lemma binary_round_aux_opp (s : bool) (m e : Z) (l : location) :
  binary_round_aux prec emax (negb s) m e l = SFopp (binary_round_aux prec emax s m e l).
Proof.
  unfold binary_round_aux.
  destruct (shr_fexp prec emax m e l) as [mrs' e'].
  destruct (shr_fexp prec emax _ e' loc_Exact) as [mrs'' e''].
  destruct (shr_m mrs'') as [ | p | p ]; [ reflexivity | | reflexivity ].
  destruct (Z.leb e'' (emax - prec)); reflexivity.
Qed.

Lemma binary_normalize_opp (m e : Z) :
  m <> 0%Z ->
  binary_normalize prec emax (- m) e false = SFopp (binary_normalize prec emax m e false).
Proof.
  intros Hm. destruct m as [ | p | p ]; [ congruence | | ];
    cbn [Z.opp binary_normalize]; unfold binary_round;
    destruct (shl_align p e _) as [mz ez].
  - apply (binary_round_aux_opp false).
  - apply (binary_round_aux_opp true).
Qed.

(** Exchanging the operands of a subtraction negates the difference. *)
Lemma SFsub_swap (a b : spec_float) : SFnegates (SF64sub a b) (SF64sub b a).
Proof.
  destruct a as [sa | sa | | sa ma ea], b as [sb | sb | | sb mb eb];
    try (left; reflexivity);
    try (destruct sa, sb; (left; reflexivity) || (right; split; eexists; reflexivity)).
  unfold SF64sub, SFsub. rewrite (Z.min_comm eb ea).
    set (za := cond_Zopp sa _). set (zb := cond_Zopp sb _).
  destruct (Z.eq_dec (za - zb) 0) as [Hz | Hnz].
  - right. replace (zb - za)%Z with 0%Z by lia. rewrite Hz.
    split; eexists; reflexivity.
  - left. replace (zb - za)%Z with (- (za - zb))%Z by lia.
    apply binary_normalize_opp. exact Hnz.
Qed.

(** A square does not see the sign. *)
Lemma SFmul_self (u v : spec_float) :
  SFnegates u v -> SF64mul v v = SF64mul u u.
Proof.
  intros [-> | [[s ->] [s' ->]]].
  - destruct u as [s | s | | s m e]; try (destruct s; reflexivity). reflexivity.
  - destruct s, s'; reflexivity.
Qed.

Lemma SFmul_opp (f u : spec_float) : SF64mul f (SFopp u) = SFopp (SF64mul f u).
Proof.
  destruct f as [sf | sf | | sf mf ef], u as [su | su | | su mu eu];
    try reflexivity; try (destruct sf, su; reflexivity).
  unfold SF64mul, SFmul, SFopp.
  replace (xorb sf (negb su)) with (negb (xorb sf su)) by (destruct sf, su; reflexivity).
  apply binary_round_aux_opp.
Qed.

Lemma SFmul_negates (f u v : spec_float) :
  SFnegates u v -> SFnegates (SF64mul f u) (SF64mul f v).
Proof.
  intros [-> | [[s ->] [s' ->]]].
  - left. apply SFmul_opp.
  - destruct f as [sf | sf | | sf mf ef];
      (left; reflexivity) || (right; split; eexists; reflexivity).
Qed.

Lemma SFdiv_opp (u r : spec_float) : SF64div (SFopp u) r = SFopp (SF64div u r).
Proof.
  destruct u as [su | su | | su mu eu], r as [sr | sr | | sr mr er];
    try reflexivity; try (destruct su, sr; reflexivity).
  unfold SF64div, SFdiv, SFopp.
  destruct (SFdiv_core_binary prec emax (Z.pos mu) eu (Z.pos mr) er) as [[mz ez] lz].
  replace (xorb (negb su) sr) with (negb (xorb su sr)) by (destruct su, sr; reflexivity).
  apply binary_round_aux_opp.
Qed.

Lemma SFdiv_negates (u v r : spec_float) :
  SFnegates u v -> SFnegates (SF64div u r) (SF64div v r).
Proof.
  intros [-> | [[s ->] [s' ->]]].
  - left. apply SFdiv_opp.
  - destruct r as [sr | sr | | sr mr er];
      (left; reflexivity) || (right; split; eexists; reflexivity).
Qed.

(** Every value but NaN is [===] to itself. *)
Lemma SFeqb_refl (u : spec_float) : u <> S754_nan -> SFeqb u u = true.
Proof.
  destruct u as [s | s | | s m e]; intros Hnan.
  - reflexivity.
  - destruct s; reflexivity.
  - congruence.
  - unfold SFeqb, SFcompare.
    rewrite Z.compare_refl.
    replace (Pos.compare_cont Eq m m) with Eq by (symmetry; apply Pos.compare_refl).
    destruct s; reflexivity.
Qed.

Lemma negates_spec (a b : float) :
  SFnegates (Prim2SF b) (Prim2SF a) -> negates a b = true.
Proof.
  unfold negates, is_nan. rewrite !eqb_spec, opp_spec.
  intros [-> | [[s ->] [s' ->]]].
  - destruct (Prim2SF b) as [s | s | | s m e] eqn:Hb.
    + rewrite SFeqb_refl by discriminate. reflexivity.
    + rewrite SFeqb_refl by discriminate. reflexivity.
    + reflexivity.
    + rewrite SFeqb_refl by discriminate. reflexivity.
  - reflexivity.
Qed.

(** Exchanging the two bodies changes neither [rSquared] nor [r]. *)
Lemma rSquared_swap (a1 a2 b1 b2 c1 c2 : float) :
  let dx := PrimFloat.sub a2 a1 in
  let dy := PrimFloat.sub b2 b1 in
  let dz := PrimFloat.sub c2 c1 in
  let dx' := PrimFloat.sub a1 a2 in
  let dy' := PrimFloat.sub b1 b2 in
  let dz' := PrimFloat.sub c1 c2 in
  dx' * dx' + dy' * dy' + dz' * dz' = dx * dx + dy * dy + dz * dz.
Proof.
  intros. apply Prim2SF_inj.
  rewrite !add_spec, !mul_spec.
  unfold dx, dy, dz, dx', dy', dz'. rewrite !sub_spec.
  rewrite (SFmul_self _ _ (SFsub_swap (Prim2SF a2) (Prim2SF a1))).
  rewrite (SFmul_self _ _ (SFsub_swap (Prim2SF b2) (Prim2SF b1))).
  rewrite (SFmul_self _ _ (SFsub_swap (Prim2SF c2) (Prim2SF c1))).
  reflexivity.
Qed.

(** One component of the two forces. *)
Lemma component_swap (F r a1 a2 : float) :
  negates (F * (a2 - a1) / r) (F * (a1 - a2) / r) = true.
Proof.
  apply negates_spec. rewrite !div_spec, !mul_spec, !sub_spec.
  apply SFdiv_negates, SFmul_negates, SFsub_swap.
Qed.

(** In double precision, exchanging the two bodies negates the force
    whenever the two products of [G] and the masses are rounded alike. *)
Lemma calculateForce_swap_double (m1 m2 : float) (pos1 pos2 : Vector3 float) :
  G * m1 * m2 = G * m2 * m1 ->
  negates3 (calculateForce m1 m2 pos1 pos2) (calculateForce m2 m1 pos2 pos1) = true.
Proof.
  intros Hmass. unfold calculateForce.
  cbn [add sub mul div Math_sqrt strictEq lit number] in *.
  rewrite (rSquared_swap pos1.(x) pos2.(x) pos1.(y) pos2.(y) pos1.(z) pos2.(z)).
  rewrite <- Hmass.
  destruct (PrimFloat.eqb _ (literal 0 0)).
  - vm_compute. reflexivity.
  - unfold negates3. cbn [x y z]. rewrite !component_swap. reflexivity.
Qed.

(** The vector of the three differences of two finite positions that are
    [===] in every component consists of zeros. *)
Lemma differences_zero (pos1 pos2 : Vector3 float) :
  finite3 pos1 = true -> strictEq3 pos1 pos2 = true ->
  (exists s, Prim2SF (PrimFloat.sub pos2.(x) pos1.(x)) = S754_zero s)
  /\ (exists s, Prim2SF (PrimFloat.sub pos2.(y) pos1.(y)) = S754_zero s)
  /\ (exists s, Prim2SF (PrimFloat.sub pos2.(z) pos1.(z)) = S754_zero s).
Proof.
  unfold finite3, strictEq3. intros Hfin Heq.
  apply andb_prop in Hfin. destruct Hfin as [Hfin Hfz].
  apply andb_prop in Hfin. destruct Hfin as [Hfx Hfy].
  apply andb_prop in Heq. destruct Heq as [Heq Hez].
  apply andb_prop in Heq. destruct Heq as [Hex Hey].
  repeat split; apply sub_strictEq_zero; assumption.
Qed.

(** A finite position is [===] to itself in every component. *)
Lemma strictEq3_refl (pos : Vector3 float) :
  finite3 pos = true -> strictEq3 pos pos = true.
Proof.
  unfold finite3, strictEq3, is_finite, is_nan.
  destruct (PrimFloat.eqb pos.(x) pos.(x)), (PrimFloat.eqb pos.(y) pos.(y)),
           (PrimFloat.eqb pos.(z) pos.(z)); cbn; try reflexivity;
    rewrite ?andb_false_r; intros H; discriminate H.
Qed.

(** C1, for finite positions: for all masses and all positions [pos1],
    [pos2] whose components are finite and pairwise [===], both
    [calculateForce] and [calculateAcceleration] return [{x: 0, y: 0, z: 0}],
    and they do so whatever the division operator is: no division takes
    part in the result.  (By [strictEq3_refl] this covers [pos2 = pos1].) *)
Theorem coincident_finite_positions (m1 m2 : float) (pos1 pos2 : Vector3 float) :
  finite3 pos1 = true -> strictEq3 pos1 pos2 = true ->
  calculateForce m1 m2 pos1 pos2 = mkVector3 0 0 0
  /\ calculateAcceleration m2 pos1 pos2 = mkVector3 0 0 0
  /\ forall d : float -> float -> float,
       @calculateForce float (numberWithDiv d) m1 m2 pos1 pos2 = mkVector3 0 0 0
       /\ @calculateAcceleration float (numberWithDiv d) m2 pos1 pos2 = mkVector3 0 0 0.
Proof.
  intros Hfin Heq.
  destruct (differences_zero pos1 pos2 Hfin Heq) as (Hx & Hy & Hz).
  pose proof (guard_taken _ _ _ Hx Hy Hz) as Hguard.
  assert (Hany : forall d : float -> float -> float,
            @calculateForce float (numberWithDiv d) m1 m2 pos1 pos2 = mkVector3 0 0 0
            /\ @calculateAcceleration float (numberWithDiv d) m2 pos1 pos2 = mkVector3 0 0 0).
  { intros d. unfold calculateForce, calculateAcceleration.
    cbn [add sub mul Math_sqrt strictEq lit numberWithDiv].
    rewrite Hguard. split; vm_compute; reflexivity. }
  destruct (Hany PrimFloat.div) as [Hforce Hacc].
  repeat split; [ exact Hforce | exact Hacc | apply Hany | apply Hany ].
Qed.

Lemma coincident_finite_positions_witness :
  calculateForce 5 7 (mkVector3 1 (-2) 0) (mkVector3 1 (-2) (-0)) = mkVector3 0 0 0
  /\ calculateAcceleration 7 (mkVector3 1 (-2) 0) (mkVector3 1 (-2) (-0)) = mkVector3 0 0 0.
Proof.
  destruct (coincident_finite_positions 5 7 (mkVector3 1 (-2) 0) (mkVector3 1 (-2) (-0)))
    as (Hforce & Hacc & _).
  - vm_compute. reflexivity.
  - vm_compute. reflexivity.
  - split; [ exact Hforce | exact Hacc ].
Defined.

(** C1, as stated, fails at infinite coordinates: the two positions are the
    same point, the difference [Infinity - Infinity] is NaN, the guard
    [r === 0] is not taken and every component of both results is NaN. *)
Lemma coincident_infinite_positions :
  strictEq3 atInfinity atInfinity = true
  /\ calculateForce 1 1 atInfinity atInfinity = mkVector3 nan nan nan
  /\ calculateAcceleration 1 atInfinity atInfinity = mkVector3 nan nan nan
  /\ calculateForce 1 1 atInfinity atInfinity <> mkVector3 0 0 0
  /\ calculateAcceleration 1 atInfinity atInfinity <> mkVector3 0 0 0.
Proof.
  assert (Hforce : calculateForce 1 1 atInfinity atInfinity = mkVector3 nan nan nan)
    by (vm_compute; reflexivity).
  assert (Hacc : calculateAcceleration 1 atInfinity atInfinity = mkVector3 nan nan nan)
    by (vm_compute; reflexivity).
  split; [ vm_compute; reflexivity | ].
  split; [ exact Hforce | ].
  split; [ exact Hacc | ].
  split.
  - rewrite Hforce. intros H. apply (f_equal (fun v => is_nan v.(x))) in H.
    vm_compute in H. discriminate H.
  - rewrite Hacc. intros H. apply (f_equal (fun v => is_nan v.(x))) in H.
    vm_compute in H. discriminate H.
Qed.



(** C10, as stated, fails by rounding: [G * 3 * 7] and [G * 7 * 3] are
    rounded after each product and differ in the last place, so the force of
    the first body on the second is not the negation of the force of the
    second on the first. *)
Lemma calculateForce_rounding_asymmetry :
  PrimFloat.eqb (calculateForce 3 7 origin unitX).(x)
                (PrimFloat.opp (calculateForce 7 3 unitX origin).(x)) = false
  /\ calculateForce 3 7 origin unitX <>
     mkVector3 (PrimFloat.opp (calculateForce 7 3 unitX origin).(x))
               (PrimFloat.opp (calculateForce 7 3 unitX origin).(y))
               (PrimFloat.opp (calculateForce 7 3 unitX origin).(z)).
Proof.
  assert (Hx : PrimFloat.eqb (calculateForce 3 7 origin unitX).(x)
                 (PrimFloat.opp (calculateForce 7 3 unitX origin).(x)) = false)
    by (vm_compute; reflexivity).
  split; [ exact Hx | ].
  intros H. apply (f_equal x) in H. cbn [x] in H.
  rewrite H in Hx. vm_compute in Hx. discriminate Hx.
Qed.

End DoublePrecision.

(** * The model at work *)

Section Examples.

Import Binary64.
Local Open Scope float_scope.

(** The literals of the two modules, as the doubles the engine reads. *)
Example G_double : (G : float) = 0x1.2589effed8accp-34.
Proof. vm_compute. reflexivity. Qed.

Example dt_double : (lit 1 3 : float) = 0x1.0624dd2f1a9fcp-10.
Proof. vm_compute. reflexivity. Qed.

(** Earth and Moon: a force along [+x] of about [1.98e20] N. *)
Example earth_moon :
  let F := calculateForce (of_Z 5972000000000000000000000) (of_Z 73420000000000000000000)
                          (mkVector3 0 0 0) (mkVector3 (of_Z 384400000) 0 0) in
  PrimFloat.ltb (of_Z 198000000000000000000) F.(x) = true
  /\ PrimFloat.ltb F.(x) (of_Z 199000000000000000000) = true
  /\ F.(y) = 0 /\ F.(z) = 0.
Proof. vm_compute. repeat split; reflexivity. Qed.

End Examples.

(** * Properties stated in both arithmetics *)

Section BothArithmetics.

Import Binary64 Exact.

(** C9: for every [a] and [mu], [calculatePeriod(a, mu)] is
    [2 PI sqrt(a^3 / mu)], the cube being the product [a a a], in every
    arithmetic; and nothing guards the arguments: in double precision
    [mu = 0] gives Infinity, a negative quotient gives NaN and [0 / 0] gives
    NaN, whatever the trigonometric functions of the engine are. *)
Theorem calculatePeriod_formula :
  (forall (num : Type) (numOps : Number num) (Math : MathObject num) (a mu : num),
     calculatePeriod a mu = period_spec a mu)
  /\ (forall (sin cos : float -> float) (atan2 : float -> float -> float),
        let Math := Binary64.mathObject sin cos atan2 in
        calculatePeriod 1%float 0%float = infinity
        /\ calculatePeriod (-1)%float 1%float = nan
        /\ calculatePeriod 0%float 0%float = nan).
Proof.
  split.
  - intros. reflexivity.
  - intros sin cos atan2 Math. repeat split; vm_compute; reflexivity.
Qed.

(** C10, amended: in exact arithmetic,
    [calculateForce(m1, m2, pos1, pos2)] is the negation, component by
    component, of [calculateForce(m2, m1, pos2, pos1)], and both are the
    zero vector at coinciding positions.  In double precision the same
    holds, each component being [===] to the negated other or both being
    NaN, for all inputs at which [G * m1 * m2] and [G * m2 * m1] are rounded
    to the same double. *)
Theorem calculateForce_antisymmetric :
  (forall (m1 m2 : R) (pos1 pos2 : Vector3 R),
     calculateForce m1 m2 pos1 pos2 = Exact.negate (calculateForce m2 m1 pos2 pos1))
  /\ (forall (m1 m2 : R) (pos : Vector3 R),
        calculateForce m1 m2 pos pos = mkVector3 0%R 0%R 0%R)
  /\ (forall (m1 m2 : float) (pos1 pos2 : Vector3 float),
        PrimFloat.mul (PrimFloat.mul G m1) m2 = PrimFloat.mul (PrimFloat.mul G m2) m1 ->
        negates3 (calculateForce m1 m2 pos1 pos2) (calculateForce m2 m1 pos2 pos1) = true).
Proof.
  split; [ | split ].
  - apply calculateForce_swap.
  - apply calculateForce_coincident.
  - apply calculateForce_swap_double.
Qed.

Lemma calculateForce_antisymmetric_witness :
  negates3 (calculateForce 3%float 5%float origin unitX)
           (calculateForce 5%float 3%float unitX origin) = true.
Proof.
  destruct calculateForce_antisymmetric as (_ & _ & Hdouble).
  apply Hdouble. vm_compute. reflexivity.
Defined.

End BothArithmetics.

(** * Further properties of the gravitation formulas *)

Section Gravitation.

Import Exact.
Local Open Scope R_scope.

Ltac real_ops :=
  cbn [add sub mul div Math_sqrt strictEq lit Math_sin Math_cos Math_atan2 Math_PI
       Exact.number Exact.mathObject x y z fst snd] in *;
  unfold Exact.literal in *;
  repeat rewrite pow_O in *; repeat rewrite Rdiv_1_r in *.

(** In exact arithmetic the force is the mass times the acceleration. *)
Lemma force_is_mass_times_acceleration (m1 m2 : R) (pos1 pos2 : Vector3 R) :
  calculateForce m1 m2 pos1 pos2 = scale m1 (calculateAcceleration m2 pos1 pos2).
Proof.
  unfold calculateForce, calculateAcceleration. real_ops.
  destruct (strictEquals _ 0); unfold scale; cbn [x y z]; f_equal; unfold Rdiv; ring.
Qed.

(** The acceleration away from the singularity, as a multiple of the
    separation. *)
Lemma calculateAcceleration_formula (m2 : R) (pos1 pos2 : Vector3 R) :
  pos1 <> pos2 ->
  let d := minus pos2 pos1 in
  let r := norm d in
  calculateAcceleration m2 pos1 pos2 = scale (G * m2 / (r * r) * / r) d.
Proof.
  intros Hne d r.
  assert (Hr : 0 < r) by (apply distance_positive; exact Hne).
  assert (Hrr : r * r = d.(x) * d.(x) + d.(y) * d.(y) + d.(z) * d.(z))
    by (apply sqrt_sqrt, sum_squares_nonneg).
  unfold calculateAcceleration. real_ops.
  change (sqrt _) with r.
  change (_ * _ + _ * _ + _ * _) with (d.(x) * d.(x) + d.(y) * d.(y) + d.(z) * d.(z)).
  rewrite <- Hrr.
  destruct (strictEquals r 0) eqn:Hguard.
  - apply strictEquals_true in Hguard. lra.
  - unfold scale, d, minus. cbn [x y z]. f_equal; unfold Rdiv; ring.
Qed.

(** The length of a multiple of a vector. *)
Lemma norm_scale (k : R) (v : Vector3 R) : norm (scale k v) = Rabs k * norm v.
Proof.
  unfold norm, scale. cbn [x y z].
  replace (k * x v * (k * x v) + k * y v * (k * y v) + k * z v * (k * z v))
    with (Rsqr k * (x v * x v + y v * y v + z v * z v)) by (unfold Rsqr; ring).
  rewrite sqrt_mult_alt by apply Rle_0_sqr.
  rewrite sqrt_Rsqr_abs. reflexivity.
Qed.

(** The magnitude of the acceleration. *)
Lemma acceleration_magnitude (m2 : R) (pos1 pos2 : Vector3 R) :
  pos1 <> pos2 -> 0 <= m2 ->
  norm (calculateAcceleration m2 pos1 pos2)
  = G * m2 / (norm (minus pos2 pos1) * norm (minus pos2 pos1)).
Proof.
  intros Hne Hm2. set (r := norm (minus pos2 pos1)).
  assert (Hr : 0 < r) by (apply distance_positive; exact Hne).
  pose proof G_positive as HG.
  rewrite (calculateAcceleration_formula m2 pos1 pos2 Hne), norm_scale. fold r.
  rewrite Rabs_right.
  - field. lra.
  - apply Rle_ge. apply Rmult_le_pos; [ | apply Rlt_le, Rinv_0_lt_compat; exact Hr ].
    apply Rmult_le_pos; [ apply Rmult_le_pos; lra | ].
    apply Rlt_le, Rinv_0_lt_compat. apply Rmult_lt_0_compat; exact Hr.
Qed.

(** X7: the inverse-square law: for positions [pos1 <> pos2] at distance [r]
    and masses that are not negative, the acceleration has magnitude
    [G m2 / r^2] and the force has magnitude [G m1 m2 / r^2]. *)
Theorem inverse_square_law (m1 m2 : R) (pos1 pos2 : Vector3 R) :
  pos1 <> pos2 -> 0 <= m1 -> 0 <= m2 ->
  let r := norm (minus pos2 pos1) in
  norm (calculateAcceleration m2 pos1 pos2) = G * m2 / (r * r)
  /\ norm (calculateForce m1 m2 pos1 pos2) = G * m1 * m2 / (r * r).
Proof.
  intros Hne Hm1 Hm2 r.
  assert (Hr : 0 < r) by (apply distance_positive; exact Hne).
  pose proof (acceleration_magnitude m2 pos1 pos2 Hne Hm2) as Hacc. fold r in Hacc.
  split; [ exact Hacc | ].
  rewrite force_is_mass_times_acceleration, norm_scale, Hacc, Rabs_right by lra.
  field. lra.
Qed.

Lemma inverse_square_law_witness :
  norm (calculateAcceleration 3 {| x := 0; y := 0; z := 0 |} {| x := 0; y := 2; z := 0 |})
  = G * 3 / (norm (minus {| x := 0; y := 2; z := 0 |} {| x := 0; y := 0; z := 0 |})
             * norm (minus {| x := 0; y := 2; z := 0 |} {| x := 0; y := 0; z := 0 |})).
Proof.
  assert (Hne : {| x := 0; y := 0; z := 0 |} <> {| x := 0; y := 2; z := 0 |} :> Vector3 R).
  { intros H. apply (f_equal y) in H. cbn [y] in H. lra. }
  destruct (inverse_square_law 1 3 _ _ Hne) as [Hacc _]; [ lra | lra | ].
  exact Hacc.
Defined.

(** X8: only the separation matters: moving both bodies by the same
    displacement changes neither the force nor the acceleration. *)
Theorem translation_invariance (m1 m2 : R) (pos1 pos2 t : Vector3 R) :
  let shift := fun p : Vector3 R =>
    {| x := p.(x) + t.(x); y := p.(y) + t.(y); z := p.(z) + t.(z) |} in
  calculateForce m1 m2 (shift pos1) (shift pos2) = calculateForce m1 m2 pos1 pos2
  /\ calculateAcceleration m2 (shift pos1) (shift pos2) = calculateAcceleration m2 pos1 pos2.
Proof.
  intros shift. unfold calculateForce, calculateAcceleration, shift. real_ops.
  replace (x pos2 + x t - (x pos1 + x t)) with (x pos2 - x pos1) by ring.
  replace (y pos2 + y t - (y pos1 + y t)) with (y pos2 - y pos1) by ring.
  replace (z pos2 + z t - (z pos1 + z t)) with (z pos2 - z pos1) by ring.
  split; reflexivity.
Qed.

(** X11: a circular orbit closes: for a central mass [m > 0] and a radius
    [a > 0], the speed [orbitalVelocity(m, a)] kept for the period
    [calculatePeriod(a, G m)] covers the circumference [2 PI a]. *)
Theorem velocity_times_period (m a : R) :
  0 < m -> 0 < a ->
  orbitalVelocity m a * calculatePeriod a (G * m) = 2 * PI * a.
Proof.
  intros Hm Ha. pose proof G_positive as HG.
  assert (HGm : 0 < G * m) by (apply Rmult_lt_0_compat; assumption).
  unfold orbitalVelocity, calculatePeriod. real_ops.
  replace (sqrt (G * m / a) * (2 * PI * sqrt (a * a * a / (G * m))))
    with (2 * PI * (sqrt (G * m / a) * sqrt (a * a * a / (G * m)))) by ring.
  rewrite <- sqrt_mult_alt by (apply Rlt_le, Rdiv_lt_0_compat; assumption).
  replace (G * m / a * (a * a * a / (G * m))) with (a * a) by (field; lra).
  rewrite sqrt_square by lra. reflexivity.
Qed.

Lemma velocity_times_period_witness :
  orbitalVelocity 5 2 * calculatePeriod 2 (G * 5) = 2 * PI * 2.
Proof.
  apply (velocity_times_period 5 2); lra.
Defined.

(** X12: Kepler's third law: for [a >= 0] and [mu > 0] the square of
    [calculatePeriod(a, mu)] times [mu] is [4 PI^2 a^3]. *)
Theorem third_law (a mu : R) :
  0 <= a -> 0 < mu ->
  calculatePeriod a mu * calculatePeriod a mu * mu = 4 * (PI * PI) * (a * a * a).
Proof.
  intros Ha Hmu. unfold calculatePeriod. real_ops.
  assert (Hq : 0 <= a * a * a / mu).
  { apply Rmult_le_pos; [ | apply Rlt_le, Rinv_0_lt_compat; exact Hmu ].
    apply Rmult_le_pos; [ apply Rmult_le_pos | ]; exact Ha. }
  replace (2 * PI * sqrt (a * a * a / mu) * (2 * PI * sqrt (a * a * a / mu)) * mu)
    with (4 * (PI * PI) * (sqrt (a * a * a / mu) * sqrt (a * a * a / mu)) * mu) by ring.
  rewrite sqrt_sqrt by exact Hq. field. lra.
Qed.

Lemma third_law_witness :
  calculatePeriod 2 3 * calculatePeriod 2 3 * 3 = 4 * (PI * PI) * (2 * 2 * 2).
Proof.
  apply (third_law 2 3); lra.
Defined.

(** X13: on a circular orbit gravity is the centripetal acceleration: for a
    central mass [m > 0] at [pos2] and a body at [pos1 <> pos2], at distance
    [r], the square of [orbitalVelocity(m, r)] over [r] is the magnitude of
    [calculateAcceleration(m, pos1, pos2)]. *)
Theorem centripetal_balance (m : R) (pos1 pos2 : Vector3 R) :
  0 < m -> pos1 <> pos2 ->
  let r := norm (minus pos2 pos1) in
  orbitalVelocity m r * orbitalVelocity m r / r = norm (calculateAcceleration m pos1 pos2).
Proof.
  intros Hm Hne r.
  assert (Hr : 0 < r) by (apply distance_positive; exact Hne).
  pose proof G_positive as HG.
  rewrite (acceleration_magnitude m pos1 pos2 Hne) by lra. fold r.
  unfold orbitalVelocity. real_ops.
  rewrite sqrt_sqrt.
  - field. lra.
  - apply Rlt_le, Rdiv_lt_0_compat; [ apply Rmult_lt_0_compat; assumption | exact Hr ].
Qed.

Lemma centripetal_balance_witness :
  orbitalVelocity 3 (norm (minus {| x := 0; y := 2; z := 0 |} {| x := 0; y := 0; z := 0 |}))
  * orbitalVelocity 3 (norm (minus {| x := 0; y := 2; z := 0 |} {| x := 0; y := 0; z := 0 |}))
  / norm (minus {| x := 0; y := 2; z := 0 |} {| x := 0; y := 0; z := 0 |})
  = norm (calculateAcceleration 3 {| x := 0; y := 0; z := 0 |} {| x := 0; y := 2; z := 0 |}).
Proof.
  apply (centripetal_balance 3); [ lra | ].
  intros H. apply (f_equal y) in H. cbn [y] in H. lra.
Defined.

End Gravitation.

(** * Further properties in exact arithmetic *)

Section Orbits.

Import Exact.
Local Open Scope R_scope.

Ltac real_ops :=
  cbn [add sub mul div Math_sqrt strictEq lit Math_sin Math_cos Math_atan2 Math_PI
       Exact.number Exact.mathObject x y z fst snd] in *;
  unfold Exact.literal in *;
  repeat rewrite pow_O in *; repeat rewrite Rdiv_1_r in *.

(** The sine is no larger than its argument. *)
Lemma Rabs_sin_le (u : R) : Rabs (sin u) <= Rabs u.
Proof.
  assert (Hpos : forall v : R, 0 < v -> Rabs (sin v) <= v).
  { intros v Hv. apply Rabs_le. split.
    - destruct (Rle_dec v 1) as [Hsmall | Hlarge].
      + pose proof (sin_ge_0 v) as Hs. pose proof PI2_1 as Hpi.
        assert (0 <= sin v) by (apply Hs; lra). lra.
      + pose proof (SIN_bound v). lra.
    - apply Rlt_le, sin_lt_x. exact Hv. }
  destruct (Rtotal_order u 0) as [Hneg | [-> | Hpos']].
  - rewrite <- (Ropp_involutive u) at 1. rewrite sin_neg, Rabs_Ropp.
    rewrite (Rabs_left u Hneg). apply Hpos. lra.
  - rewrite sin_0. lra.
  - rewrite (Rabs_right u) by lra. apply Hpos. exact Hpos'.
Qed.

(** The sine changes no faster than its argument. *)
Lemma sin_lipschitz (p q : R) : Rabs (sin p - sin q) <= Rabs (p - q).
Proof.
  rewrite form4, !Rabs_mult.
  pose proof (COS_bound ((p + q) / 2)) as Hcos.
  assert (Hc : Rabs (cos ((p + q) / 2)) <= 1) by (apply Rabs_le; lra).
  pose proof (Rabs_sin_le ((p - q) / 2)) as Hs.
  pose proof (Rabs_pos (sin ((p - q) / 2))) as Hs0.
  pose proof (Rabs_pos (cos ((p + q) / 2))) as Hc0.
  replace (Rabs (p - q)) with (2 * Rabs ((p - q) / 2)).
  - rewrite (Rabs_right 2) by lra. nra.
  - unfold Rdiv. rewrite Rabs_mult, (Rabs_right (/ 2)) by lra. lra.
Qed.

(** Successive iterates of the fixed-point map get closer by the factor
    [|e|] at each step. *)
Lemma keplerStep_contracts (M e : R) (n : nat) :
  Rabs (Nat.iter (S n) (keplerStep M e) M - Nat.iter n (keplerStep M e) M) <= Rabs e ^ S n.
Proof.
  induction n as [ | n IH ].
  - rewrite Nat.iter_succ. cbn [Nat.iter nat_rect]. unfold keplerStep. real_ops.
    replace (M + e * sin M - M) with (e * sin M) by ring.
    rewrite Rabs_mult, pow_1.
    pose proof (SIN_bound M). pose proof (Rabs_pos e).
    assert (Rabs (sin M) <= 1) by (apply Rabs_le; lra). nra.
  - rewrite Nat.iter_succ in IH. rewrite (Nat.iter_succ (S n)), (Nat.iter_succ n).
    set (En := Nat.iter n (keplerStep M e) M) in *.
    set (En1 := keplerStep M e En) in *.
    unfold keplerStep at 1. unfold En1 at 2. unfold keplerStep at 1. real_ops.
    replace (M + e * sin En1 - (M + e * sin En)) with (e * (sin En1 - sin En)) by ring.
    rewrite Rabs_mult.
    pose proof (sin_lipschitz En1 En) as Hlip. pose proof (Rabs_pos e) as He.
    change (Rabs e ^ S (S n)) with (Rabs e * Rabs e ^ S n).
    apply Rmult_le_compat_l; [ exact He | ]. lra.
Qed.

(** X1: the eccentric anomaly that the loop of [getOrbitalPosition] leaves in
    [E] solves Kepler's equation [E = M + e sin E] up to [|e|^7]. *)
Theorem kepler_residual (M e : R) :
  let E := keplerLoop M e 0 M in
  Rabs (keplerStep M e E - E) <= Rabs e ^ 7.
Proof.
  intros E. unfold E. rewrite keplerLoop_iter.
  apply (keplerStep_contracts M e 6).
Qed.

(** The distance from the origin is the radius [a (1 - e cos E)]. *)
Lemma position_norm (a e i Omega omega E : R) :
  norm (position_spec a e i Omega omega E) = Rabs (a * (1 - e * cos E)).
Proof.
  unfold position_spec. rewrite rotation_norm. unfold radius_spec. real_ops.
  set (r := a * (1 - e * cos E)). set (nu := trueAnomaly_spec e E).
  replace (r * cos nu * (r * cos nu) + r * sin nu * (r * sin nu)) with (Rsqr r).
  - apply sqrt_Rsqr_abs.
  - pose proof (sin2_cos2 nu) as Hunit. unfold Rsqr in *.
    transitivity (r * r * (sin nu * sin nu + cos nu * cos nu)); [ rewrite Hunit | ]; ring.
Qed.

(** X2: between periapsis and apoapsis: for every elements record of the data
    model ([a >= 0], [0 <= e < 1], [T <> 0]) and every time, the position
    returned by [getOrbitalPosition] is no closer to the origin than
    [a (1 - e)] and no farther than [a (1 + e)]. *)
Theorem orbit_between_apsides (elements : OrbitalElements R) (time : R) :
  let a := valueOr elements.(semiMajorAxis) (lit 10 0) in
  let e := valueOr elements.(eccentricity) (lit 0 0) in
  let T := valueOr elements.(orbitalPeriod) (lit 1 0) in
  0 <= a -> 0 <= e < 1 -> T <> 0 ->
  a * (1 - e) <= norm (fst (getOrbitalPosition elements time)) <= a * (1 + e).
Proof.
  intros a e T Ha He HT.
  rewrite getOrbitalPosition_unfolded, position_norm.
  change (valueOr elements.(semiMajorAxis) (lit 10 0)) with a.
  change (valueOr elements.(eccentricity) (lit 0 0)) with e.
  set (E := eccentricAnomaly_spec _ _). clearbody E a e T.
  pose proof (COS_bound E) as Hcos.
  assert (Hup : e * cos E <= e * 1) by (apply Rmult_le_compat_l; lra).
  assert (Hlow : e * -1 <= e * cos E) by (apply Rmult_le_compat_l; lra).
  assert (Hr : 0 <= a * (1 - e * cos E)) by (apply Rmult_le_pos; lra).
  rewrite (Rabs_right _ (Rle_ge _ _ Hr)).
  split; apply Rmult_le_compat_l; lra.
Qed.

Lemma orbit_between_apsides_witness :
  100 * (1 - 0) <= norm (fst (getOrbitalPosition scenario 7)) <= 100 * (1 + 0).
Proof.
  apply (orbit_between_apsides scenario 7); cbn [valueOr scenario semiMajorAxis
    eccentricity orbitalPeriod]; lra.
Defined.

(** X3: the height above the reference plane is bounded by the inclination:
    [|z| <= |sin i| * distance]; in particular an orbit of inclination 0
    stays in the plane [z = 0]. *)
Theorem orbit_height_bounded (elements : OrbitalElements R) (time : R) :
  let i := valueOr elements.(inclination) (lit 0 0) in
  let e := valueOr elements.(eccentricity) (lit 0 0) in
  let T := valueOr elements.(orbitalPeriod) (lit 1 0) in
  0 <= e < 1 -> T <> 0 ->
  Rabs (fst (getOrbitalPosition elements time)).(z)
    <= Rabs (sin i) * norm (fst (getOrbitalPosition elements time))
  /\ (i = 0 -> (fst (getOrbitalPosition elements time)).(z) = 0).
Proof.
  intros i e T He HT.
  rewrite getOrbitalPosition_unfolded. fold i e.
  unfold position_spec at 2. rewrite rotation_norm.
  unfold position_spec, rotation_spec. cbn [x y z]. real_ops.
  set (X := radius_spec _ _ _ * cos _). set (Y := radius_spec _ _ _ * sin _).
  set (omega := valueOr elements.(argumentOfPeriapsis) _).
  split.
  - replace (X * (sin omega * sin i) + Y * (cos omega * sin i))
      with (sin i * (X * sin omega + Y * cos omega)) by ring.
    rewrite Rabs_mult. apply Rmult_le_compat_l; [ apply Rabs_pos | ].
    rewrite <- sqrt_Rsqr_abs. apply sqrt_le_1_alt.
    pose proof (sin2_cos2 omega) as Hunit. unfold Rsqr in *.
    assert (Hsplit : X * X + Y * Y =
                     (X * sin omega + Y * cos omega) * (X * sin omega + Y * cos omega)
                     + (X * cos omega - Y * sin omega) * (X * cos omega - Y * sin omega)).
    { transitivity ((X * X + Y * Y) * (sin omega * sin omega + cos omega * cos omega));
        [ rewrite Hunit | ]; ring. }
    pose proof (Rle_0_sqr (X * cos omega - Y * sin omega)) as Hsq. unfold Rsqr in Hsq.
    lra.
  - intros ->. rewrite sin_0. ring.
Qed.

Lemma orbit_height_bounded_witness :
  (fst (getOrbitalPosition scenario 7)).(z) = 0.
Proof.
  destruct (orbit_height_bounded scenario 7) as [_ Hplane].
  - cbn [valueOr scenario eccentricity]. real_ops. lra.
  - cbn [valueOr scenario orbitalPeriod]. lra.
  - apply Hplane. cbn [valueOr scenario inclination]. real_ops. reflexivity.
Defined.

(** A whole turn changes neither cosine nor sine. *)
Lemma turn_forward (t : R) : cos (t + 2 * PI) = cos t /\ sin (t + 2 * PI) = sin t.
Proof.
  rewrite cos_plus, sin_plus, cos_2PI, sin_2PI. split; ring.
Qed.

Lemma turn_backward (t : R) : cos (t - 2 * PI) = cos t /\ sin (t - 2 * PI) = sin t.
Proof.
  rewrite cos_minus, sin_minus, cos_2PI, sin_2PI. split; ring.
Qed.

(** The opposite point has the angle half a turn away: twice the angle is
    the same direction. *)
Lemma atan2_opposite (v u : R) :
  cos (2 * atan2 (- v) (- u)) = cos (2 * atan2 v u)
  /\ sin (2 * atan2 (- v) (- u)) = sin (2 * atan2 v u).
Proof.
  assert (Hfwd : forall t : R, cos (2 * (t + PI)) = cos (2 * t) /\ sin (2 * (t + PI)) = sin (2 * t)).
  { intros t. replace (2 * (t + PI)) with (2 * t + 2 * PI) by ring. apply turn_forward. }
  assert (Hbwd : forall t : R, cos (2 * (t - PI)) = cos (2 * t) /\ sin (2 * (t - PI)) = sin (2 * t)).
  { intros t. replace (2 * (t - PI)) with (2 * t - 2 * PI) by ring. apply turn_backward. }
  assert (Hhalf : cos (2 * - (PI / 2)) = cos (2 * (PI / 2))
                  /\ sin (2 * - (PI / 2)) = sin (2 * (PI / 2))).
  { replace (2 * - (PI / 2)) with (- PI) by field.
    replace (2 * (PI / 2)) with PI by field.
    rewrite cos_neg, sin_neg, sin_PI. split; [ reflexivity | ring ]. }
  unfold atan2.
  destruct (Rlt_dec 0 u) as [Hu | Hu].
  - destruct (Rlt_dec 0 (- u)); [ lra | ].
    destruct (Rlt_dec (- u) 0); [ | lra ].
    replace (- v / - u) with (v / u) by (field; lra).
    destruct (Rle_dec 0 (- v)); [ apply Hfwd | apply Hbwd ].
  - destruct (Rlt_dec u 0) as [Hu' | Hu'].
    + destruct (Rlt_dec 0 (- u)); [ | lra ].
      replace (- v / - u) with (v / u) by (field; lra).
      destruct (Rle_dec 0 v);
        [ destruct (Hfwd (atan (v / u))) | destruct (Hbwd (atan (v / u))) ];
        split; congruence.
    + assert (u = 0) by lra. subst u.
      destruct (Rlt_dec 0 (- 0)); [ lra | ].
      destruct (Rlt_dec (- 0) 0); [ lra | ].
      destruct (Rlt_dec 0 v) as [Hv | Hv].
      * destruct (Rlt_dec 0 (- v)); [ lra | ].
        destruct (Rlt_dec (- v) 0); [ | lra ]. exact Hhalf.
      * destruct (Rlt_dec v 0) as [Hv' | Hv'].
        -- destruct (Rlt_dec 0 (- v)); [ | lra ].
           destruct Hhalf. split; congruence.
        -- destruct (Rlt_dec 0 (- v)); [ lra | ].
           destruct (Rlt_dec (- v) 0); [ lra | ]. split; reflexivity.
Qed.

(** A whole turn of the eccentric anomaly gives the same position. *)
Lemma position_turn (a e i Omega omega E : R) :
  position_spec a e i Omega omega (E + 2 * PI) = position_spec a e i Omega omega E.
Proof.
  unfold position_spec, radius_spec.
  destruct (turn_forward E) as [HcosE HsinE].
  assert (Hnu : cos (trueAnomaly_spec e (E + 2 * PI)) = cos (trueAnomaly_spec e E)
                /\ sin (trueAnomaly_spec e (E + 2 * PI)) = sin (trueAnomaly_spec e E)).
  { unfold trueAnomaly_spec. real_ops.
    replace ((E + 2 * PI) / 2) with (E / 2 + PI) by field.
    rewrite neg_sin, neg_cos.
    replace (sqrt (1 + e) * - sin (E / 2)) with (- (sqrt (1 + e) * sin (E / 2))) by ring.
    replace (sqrt (1 - e) * - cos (E / 2)) with (- (sqrt (1 - e) * cos (E / 2))) by ring.
    apply atan2_opposite. }
  destruct Hnu as [Hcos Hsin]. real_ops.
  rewrite HcosE, Hcos, Hsin. reflexivity.
Qed.

(** A whole turn of the mean anomaly is a whole turn of every iterate. *)
Lemma keplerStep_turn (M e : R) (n : nat) (E : R) :
  Nat.iter n (keplerStep (M + 2 * PI) e) (E + 2 * PI)
  = Nat.iter n (keplerStep M e) E + 2 * PI.
Proof.
  induction n as [ | n IH ]; [ reflexivity | ].
  rewrite !Nat.iter_succ, IH. unfold keplerStep. real_ops.
  destruct (turn_forward (Nat.iter n (fun E0 : R => M + e * sin E0) E)) as [_ Hsin].
  rewrite Hsin. ring.
Qed.

(** X4: one period later, the same position, whatever the eccentricity: for
    every elements record of the data model ([0 <= e < 1], [T <> 0]) and
    every time, [getOrbitalPosition] at [time + orbitalPeriod] returns the
    position it returns at [time]. *)
Theorem orbit_periodic (elements : OrbitalElements R) (time : R) :
  let e := valueOr elements.(eccentricity) (lit 0 0) in
  let T := valueOr elements.(orbitalPeriod) (lit 1 0) in
  0 <= e < 1 -> T <> 0 ->
  fst (getOrbitalPosition elements (time + T)) = fst (getOrbitalPosition elements time).
Proof.
  intros e T He HT.
  rewrite !getOrbitalPosition_unfolded. fold e T.
  set (M0 := valueOr elements.(meanAnomalyAtEpoch) (lit 0 0)).
  assert (Hturn : meanAnomaly_spec M0 T (time + T) = meanAnomaly_spec M0 T time + 2 * PI).
  { unfold meanAnomaly_spec. real_ops. field. exact HT. }
  rewrite Hturn. unfold eccentricAnomaly_spec.
  rewrite keplerStep_turn. apply position_turn.
Qed.

Lemma orbit_periodic_witness :
  fst (getOrbitalPosition eccentricScenario (3 + 365))
  = fst (getOrbitalPosition eccentricScenario 3).
Proof.
  apply (orbit_periodic eccentricScenario 3);
    cbn [valueOr eccentricScenario eccentricity orbitalPeriod]; lra.
Defined.

(** At mean anomaly 0 and at mean anomaly [PI] the iteration does not move. *)
Lemma eccentricAnomaly_periapsis (e : R) : eccentricAnomaly_spec 0 e = 0.
Proof.
  unfold eccentricAnomaly_spec, keplerStep, Nat.iter. cbn [nat_rect]. real_ops.
  repeat (rewrite ?sin_0, ?Rmult_0_r, ?Rplus_0_r). reflexivity.
Qed.

Lemma eccentricAnomaly_apoapsis (e : R) : eccentricAnomaly_spec PI e = PI.
Proof.
  unfold eccentricAnomaly_spec, keplerStep, Nat.iter. cbn [nat_rect]. real_ops.
  repeat (rewrite ?sin_PI, ?Rmult_0_r, ?Rplus_0_r). reflexivity.
Qed.

Lemma position_periapsis (a e i Omega omega : R) :
  0 <= e < 1 ->
  position_spec a e i Omega omega 0 = rotation_spec Omega i omega (a * (1 - e)) 0.
Proof.
  intros He. unfold position_spec, radius_spec, trueAnomaly_spec. real_ops.
  replace (0 / 2) with 0 by field.
  rewrite sin_0, cos_0, Rmult_0_r, !Rmult_1_r.
  assert (Hs : 0 < sqrt (1 - e)) by (apply sqrt_lt_R0; lra).
  unfold atan2. destruct (Rlt_dec 0 (sqrt (1 - e))); [ | lra ].
  replace (0 / sqrt (1 - e)) with 0 by (field; lra).
  rewrite atan_0, Rmult_0_r, cos_0, sin_0, Rmult_0_r, Rmult_1_r. reflexivity.
Qed.

Lemma position_apoapsis (a e i Omega omega : R) :
  0 <= e < 1 ->
  position_spec a e i Omega omega PI = rotation_spec Omega i omega (- (a * (1 + e))) 0.
Proof.
  intros He. unfold position_spec, radius_spec, trueAnomaly_spec. real_ops.
  rewrite sin_PI2, cos_PI2, cos_PI, Rmult_0_r, !Rmult_1_r.
  assert (Hs : 0 < sqrt (1 + e)) by (apply sqrt_lt_R0; lra).
  unfold atan2. destruct (Rlt_dec 0 0); [ lra | ].
  destruct (Rlt_dec 0 (sqrt (1 + e))); [ | lra ].
  replace (2 * (PI / 2)) with PI by field.
  rewrite cos_PI, sin_PI, Rmult_0_r. f_equal. ring.
Qed.

(** X5: the bounds are attained: for every elements record of the data model
    whose mean anomaly at epoch is 0, the position at time 0 is the
    periapsis, at distance [a (1 - e)], and the position half a period
    later is the apoapsis, on the opposite side at distance [a (1 + e)]. *)
Theorem apsides_attained (elements : OrbitalElements R) :
  let a := valueOr elements.(semiMajorAxis) (lit 10 0) in
  let e := valueOr elements.(eccentricity) (lit 0 0) in
  let i := valueOr elements.(inclination) (lit 0 0) in
  let Omega := valueOr elements.(longitudeOfAscendingNode) (lit 0 0) in
  let omega := valueOr elements.(argumentOfPeriapsis) (lit 0 0) in
  let T := valueOr elements.(orbitalPeriod) (lit 1 0) in
  valueOr elements.(meanAnomalyAtEpoch) (lit 0 0) = 0 ->
  0 <= a -> 0 <= e < 1 -> T <> 0 ->
  fst (getOrbitalPosition elements 0) = rotation_spec Omega i omega (a * (1 - e)) 0
  /\ norm (fst (getOrbitalPosition elements 0)) = a * (1 - e)
  /\ fst (getOrbitalPosition elements (T / 2)) = rotation_spec Omega i omega (- (a * (1 + e))) 0
  /\ norm (fst (getOrbitalPosition elements (T / 2))) = a * (1 + e).
Proof.
  intros a e i Omega omega T HM0 Ha He HT.
  assert (Hperi : fst (getOrbitalPosition elements 0)
                  = rotation_spec Omega i omega (a * (1 - e)) 0).
  { rewrite getOrbitalPosition_unfolded, HM0.
    replace (meanAnomaly_spec 0 (valueOr elements.(orbitalPeriod) (lit 1 0)) 0) with 0
      by (unfold meanAnomaly_spec; real_ops; unfold Rdiv; ring).
    rewrite eccentricAnomaly_periapsis. apply position_periapsis. exact He. }
  assert (Hapo : fst (getOrbitalPosition elements (T / 2))
                 = rotation_spec Omega i omega (- (a * (1 + e))) 0).
  { rewrite getOrbitalPosition_unfolded, HM0. fold T.
    replace (meanAnomaly_spec 0 T (T / 2)) with PI
      by (unfold meanAnomaly_spec; real_ops; field; exact HT).
    rewrite eccentricAnomaly_apoapsis. apply position_apoapsis. exact He. }
  split; [ exact Hperi | ]. split; [ | split; [ exact Hapo | ] ].
  - rewrite Hperi, rotation_norm.
    replace (a * (1 - e) * (a * (1 - e)) + 0 * 0) with (a * (1 - e) * (a * (1 - e))) by ring.
    apply sqrt_square. apply Rmult_le_pos; lra.
  - rewrite Hapo, rotation_norm.
    replace (- (a * (1 + e)) * - (a * (1 + e)) + 0 * 0)
      with (a * (1 + e) * (a * (1 + e))) by ring.
    apply sqrt_square. apply Rmult_le_pos; lra.
Qed.

Lemma apsides_attained_witness :
  norm (fst (getOrbitalPosition eccentricScenario 0)) = 100 * (1 - 1 / 2)
  /\ norm (fst (getOrbitalPosition eccentricScenario (365 / 2))) = 100 * (1 + 1 / 2).
Proof.
  destruct (apsides_attained eccentricScenario) as (_ & Hperi & _ & Hapo);
    try (cbn [valueOr eccentricScenario semiMajorAxis eccentricity orbitalPeriod
              meanAnomalyAtEpoch]; real_ops; lra).
  split; [ exact Hperi | exact Hapo ].
Defined.

(** The rotation is linear: the difference of two rotated points is the
    rotated difference. *)
Lemma rotation_minus (Omega i omega X1 Y1 X2 Y2 : R) :
  minus (rotation_spec Omega i omega X2 Y2) (rotation_spec Omega i omega X1 Y1)
  = rotation_spec Omega i omega (X2 - X1) (Y2 - Y1).
Proof.
  unfold minus, rotation_spec. cbn [x y z]. real_ops. f_equal; ring.
Qed.

(** The chord between two points of a circle. *)
Lemma chord_length (a E1 E2 : R) :
  0 <= a ->
  sqrt ((a * cos E2 - a * cos E1) * (a * cos E2 - a * cos E1)
        + (a * sin E2 - a * sin E1) * (a * sin E2 - a * sin E1))
  = 2 * a * Rabs (sin ((E2 - E1) / 2)).
Proof.
  intros Ha. set (u := (E2 - E1) / 2).
  assert (Hcos : cos (E2 - E1) = 1 - 2 * sin u * sin u).
  { replace (E2 - E1) with (2 * u) by (unfold u; field). apply cos_2a_sin. }
  rewrite cos_minus in Hcos.
  pose proof (sin2_cos2 E1) as H1. pose proof (sin2_cos2 E2) as H2. unfold Rsqr in *.
  replace ((a * cos E2 - a * cos E1) * (a * cos E2 - a * cos E1)
           + (a * sin E2 - a * sin E1) * (a * sin E2 - a * sin E1))
    with (Rsqr (2 * a * sin u)).
  - rewrite sqrt_Rsqr_abs, !Rabs_mult, (Rabs_right 2), (Rabs_right a) by lra.
    reflexivity.
  - unfold Rsqr.
    transitivity (a * a * ((sin E2 * sin E2 + cos E2 * cos E2)
                           + (sin E1 * sin E1 + cos E1 * cos E1)
                           - 2 * (cos E2 * cos E1 + sin E2 * sin E1))); [ | ring ].
    rewrite H1, H2, Hcos. ring.
Qed.

(** X6: the speed that [getOrbitalVelocity] reports on a circular orbit: for
    every elements record of the data model with eccentricity 0, every time
    and every [mu], the magnitude of the result is the chord of the step
    over the step, [2 a |sin(PI dt / T)| / dt] with [dt = 0.001], and it
    never exceeds the speed [2 PI a / |T|] of the orbit itself. *)
Theorem circular_speed (elements : OrbitalElements R) (time : R) (mu : option R) :
  let a := valueOr elements.(semiMajorAxis) (lit 10 0) in
  let T := valueOr elements.(orbitalPeriod) (lit 1 0) in
  let dt := lit 1 3 in
  valueOr elements.(eccentricity) (lit 0 0) = 0 ->
  0 <= a -> T <> 0 ->
  norm (fst (getOrbitalVelocity elements time mu)) = 2 * a * Rabs (sin (PI * dt / T)) / dt
  /\ norm (fst (getOrbitalVelocity elements time mu)) <= 2 * PI * a / Rabs T.
Proof.
  intros a T dt He Ha HT.
  assert (Hdt : dt = / 1000) by (unfold dt; real_ops; lra).
  assert (Hspeed : norm (fst (getOrbitalVelocity elements time mu))
                   = 2 * a * Rabs (sin (PI * dt / T)) / dt).
  { unfold getOrbitalVelocity, bind, ret.
    rewrite (surjective_pairing (getOrbitalPosition elements time)).
    rewrite getOrbitalPosition_reads_only.
    rewrite (surjective_pairing (getOrbitalPosition elements (add time (lit 1 3)))).
    cbn [fst]. fold dt.
    set (p := fst (getOrbitalPosition elements time)).
    set (q := fst (getOrbitalPosition elements (add time dt))).
    assert (Hv : {| x := div (sub q.(x) p.(x)) dt;
                    y := div (sub q.(y) p.(y)) dt;
                    z := div (sub q.(z) p.(z)) dt |} = scale (/ dt) (minus q p)).
    { unfold scale, minus. cbn [x y z]. real_ops. f_equal; unfold Rdiv; ring. }
    rewrite Hv, norm_scale. unfold p, q.
    rewrite !(getOrbitalPosition_circular _ _ He), rotation_minus, rotation_norm.
    fold a T.
    set (M0 := valueOr elements.(meanAnomalyAtEpoch) (lit 0 0)).
    rewrite chord_length by exact Ha.
    replace ((meanAnomaly_spec M0 T (add time dt) - meanAnomaly_spec M0 T time) / 2)
      with (PI * dt / T) by (unfold meanAnomaly_spec; real_ops; field; exact HT).
    rewrite Rabs_right by (rewrite Hdt; lra).
    unfold Rdiv. ring. }
  split; [ exact Hspeed | ].
  rewrite Hspeed.
  pose proof (Rabs_sin_le (PI * dt / T)) as Hsin.
  assert (Harg : Rabs (PI * dt / T) = PI * dt / Rabs T).
  { unfold Rdiv. rewrite !Rabs_mult, Rabs_inv.
    pose proof PI_RGT_0. rewrite (Rabs_right PI), (Rabs_right dt) by (rewrite ?Hdt; lra).
    reflexivity. }
  rewrite Harg in Hsin.
  assert (HTpos : 0 < Rabs T) by (apply Rabs_pos_lt; exact HT).
  assert (Hdtpos : 0 < dt) by (rewrite Hdt; lra).
  apply Rle_trans with (2 * a * (PI * dt / Rabs T) / dt).
  - unfold Rdiv at 1 3. apply Rmult_le_compat_r; [ apply Rlt_le, Rinv_0_lt_compat; exact Hdtpos | ].
    apply Rmult_le_compat_l; [ lra | exact Hsin ].
  - right. field. split; lra.
Qed.

Lemma circular_speed_witness :
  norm (fst (getOrbitalVelocity scenario 7 None)) <= 2 * PI * 100 / Rabs 365.
Proof.
  destruct (circular_speed scenario 7 None) as [_ Hbound].
  - reflexivity.
  - cbn [valueOr scenario semiMajorAxis]. lra.
  - cbn [valueOr scenario orbitalPeriod]. lra.
  - exact Hbound.
Defined.

End Orbits.

(** * Further properties in both arithmetics *)

Section Newton.

Import Binary64 Exact.

(** In double precision [G * 1] is [G], so the force on a unit mass is
    computed by the very operations of the acceleration. *)
Lemma unit_mass_double (m2 : float) (pos1 pos2 : Vector3 float) :
  calculateForce 1%float m2 pos1 pos2 = calculateAcceleration m2 pos1 pos2.
Proof.
  unfold calculateForce, calculateAcceleration.
  cbn [add sub mul div Math_sqrt strictEq lit Binary64.number].
  replace (PrimFloat.mul G 1%float) with (G : float) by (vm_compute; reflexivity).
  reflexivity.
Qed.

(** In double precision, exchanging the two positions negates the
    acceleration. *)
Lemma calculateAcceleration_swap_double (m : float) (pos1 pos2 : Vector3 float) :
  negates3 (calculateAcceleration m pos1 pos2) (calculateAcceleration m pos2 pos1) = true.
Proof.
  unfold calculateAcceleration.
  cbn [add sub mul div Math_sqrt strictEq lit Binary64.number].
  rewrite (rSquared_swap pos1.(x) pos2.(x) pos1.(y) pos2.(y) pos1.(z) pos2.(z)).
  destruct (PrimFloat.eqb _ (Binary64.literal 0 0)).
  - vm_compute. reflexivity.
  - unfold negates3. cbn [x y z]. rewrite !component_swap. reflexivity.
Qed.

(** In exact arithmetic, exchanging the two positions negates the
    acceleration. *)
Lemma calculateAcceleration_swap (m : R) (pos1 pos2 : Vector3 R) :
  calculateAcceleration m pos1 pos2 = negate (calculateAcceleration m pos2 pos1).
Proof.
  unfold calculateAcceleration.
  cbn [add sub mul div Math_sqrt strictEq lit Exact.number].
  set (dx := (pos2.(x) - pos1.(x))%R). set (dy := (pos2.(y) - pos1.(y))%R).
  set (dz := (pos2.(z) - pos1.(z))%R).
  replace (pos1.(x) - pos2.(x))%R with (- dx)%R by (unfold dx; ring).
  replace (pos1.(y) - pos2.(y))%R with (- dy)%R by (unfold dy; ring).
  replace (pos1.(z) - pos2.(z))%R with (- dz)%R by (unfold dz; ring).
  replace (- dx * - dx + - dy * - dy + - dz * - dz)%R
    with (dx * dx + dy * dy + dz * dz)%R by ring.
  destruct (strictEquals _ _); unfold negate, Exact.literal; cbn [x y z];
    f_equal; unfold Rdiv; ring.
Qed.

(** X9: Newton's second law between the two functions: in exact arithmetic the
    force is the mass of the first body times its acceleration, for all
    inputs; in double precision the force on a mass of 1 is the
    acceleration, bit for bit, for all inputs. *)
Theorem force_and_acceleration :
  (forall (m1 m2 : R) (pos1 pos2 : Vector3 R),
     calculateForce m1 m2 pos1 pos2 = scale m1 (calculateAcceleration m2 pos1 pos2))
  /\ (forall (m2 : float) (pos1 pos2 : Vector3 float),
        calculateForce 1%float m2 pos1 pos2 = calculateAcceleration m2 pos1 pos2).
Proof.
  split.
  - apply force_is_mass_times_acceleration.
  - apply unit_mass_double.
Qed.

(** X10: exchanging the two positions negates the acceleration: in exact
    arithmetic, and in double precision for all inputs (each component
    [===] to the negated other, or both NaN). *)
Theorem acceleration_antisymmetric :
  (forall (m : R) (pos1 pos2 : Vector3 R),
     calculateAcceleration m pos1 pos2 = negate (calculateAcceleration m pos2 pos1))
  /\ (forall (m : float) (pos1 pos2 : Vector3 float),
        negates3 (calculateAcceleration m pos1 pos2) (calculateAcceleration m pos2 pos1)
        = true).
Proof.
  split.
  - apply calculateAcceleration_swap.
  - apply calculateAcceleration_swap_double.
Qed.

End Newton.

(** * Properties of the entities *)

Section Entities.

Import Exact Binary64 Compare.
Local Open Scope R_scope.

Ltac entity_ops :=
  cbn [add sub mul div Math_sqrt strictEq lit Math_sin Math_cos Math_atan2 Math_PI
       neg lessThan Math_min Math_max Math_abs
       Exact.number Exact.mathObject Compare.exact x y z fst snd] in *;
  unfold Exact.literal in *; cbn [pow] in *;
  repeat rewrite Rmult_1_r in *; repeat rewrite Rdiv_1_r in *.



(** X15: an update puts the planet on the circle of radius [|semiMajorAxis|]
    around the origin, in the plane [y = 0] (exact arithmetic, period not
    zero). *)
Theorem planet_on_circle (this : Planet.t R) (deltaTime : R) (obj : Object3D R) :
  Planet.object this = Some obj ->
  Planet.orbitalPeriod this <> 0 ->
  exists pos : Vector3 R,
    planetPosition (Planet.update this deltaTime) = Some pos
    /\ pos.(y) = 0
    /\ norm pos = Rabs (Planet.semiMajorAxis this).
Proof.
  intros Hobj HT. unfold planetPosition, Planet.update. rewrite Hobj.
  cbn [Planet.moved Planet.object position].
  eexists. split; [ reflexivity | ]. split.
  - entity_ops. lra.
  - unfold norm. entity_ops.
    set (theta := Planet.orbitAngle this + _). set (a := Planet.semiMajorAxis this).
    match goal with |- sqrt ?s = _ => replace s with (Rsqr a) end.
    + apply sqrt_Rsqr_abs.
    + pose proof (sin2_cos2 theta) as Hunit. unfold Rsqr in *.
      transitivity (a * a * (sin theta * sin theta + cos theta * cos theta));
        [ rewrite Hunit; ring | unfold Rdiv; ring ].
Qed.

Lemma planet_on_circle_witness :
  exists pos : Vector3 R,
    planetPosition (Planet.update earth 3) = Some pos
    /\ pos.(y) = 0 /\ norm pos = Rabs 100.
Proof.
  apply (planet_on_circle earth 3 restingObject).
  - reflexivity.
  - cbn [earth Planet.orbitalPeriod]. lra.
Defined.

(** X16: updates add up: with a period that is not zero, an update by [d1]
    followed by an update by [d2] leaves the planet exactly as one update by
    [d1 + d2] does (exact arithmetic), so the motion does not depend on how
    the time is cut into frames. *)
Theorem planet_updates_add_up (this : Planet.t R) (d1 d2 : R) :
  Planet.orbitalPeriod this <> 0 ->
  Planet.update (Planet.update this d1) d2 = Planet.update this (d1 + d2).
Proof.
  intros HT. unfold Planet.update.
  destruct (Planet.object this) as [obj | ] eqn:Hobj.
  - cbn [Planet.moved Planet.object Planet.orbitAngle Planet.orbitalPeriod
         Planet.semiMajorAxis Planet.rotationSpeed position rotation].
    unfold Planet.moved, increaseY.
    cbn [Planet.name Planet.radius Planet.mass Planet.semiMajorAxis Planet.eccentricity
         Planet.inclination Planet.longitudeOfAscendingNode Planet.argumentOfPeriapsis
         Planet.meanAnomalyAtEpoch Planet.orbitalPeriod Planet.rotationSpeed
         Planet.hasRings Planet.color position rotation].
    entity_ops.
    set (T := Planet.orbitalPeriod this) in *.
    replace (Planet.orbitAngle this + d1 / T * (1 / 10) + d2 / T * (1 / 10))
      with (Planet.orbitAngle this + (d1 + d2) / T * (1 / 10)) by (field; exact HT).
    replace (y (rotation obj) + Planet.rotationSpeed this * d1 + Planet.rotationSpeed this * d2)
      with (y (rotation obj) + Planet.rotationSpeed this * (d1 + d2)) by ring.
    reflexivity.
  - rewrite Hobj. reflexivity.
Qed.

Lemma planet_updates_add_up_witness :
  Planet.update (Planet.update earth 1) 2 = Planet.update earth (1 + 2).
Proof.
  apply (planet_updates_add_up earth 1 2). cbn [earth Planet.orbitalPeriod]. lra.
Defined.



(** X18: the speed stays within its limits: for a top speed and an acceleration
    that are not negative, a speed between [-maxSpeed / 2] and [maxSpeed]
    is between them again after an update, whatever keys are held and
    whatever the frame time is; the update changes neither limit (exact
    arithmetic). *)
Theorem spacecraft_speed_limits
  (forward : Vector3 R -> Vector3 R) (toFixed : R -> nat -> string)
  (this : Spacecraft.t R) (deltaTime : R) (doc : Document) :
  0 <= Spacecraft.maxSpeed this ->
  0 <= Spacecraft.acceleration this ->
  - Spacecraft.maxSpeed this / 2 <= Spacecraft.speed this <= Spacecraft.maxSpeed this ->
  let after := fst (Spacecraft.update forward toFixed this deltaTime doc) in
  - Spacecraft.maxSpeed this / 2 <= Spacecraft.speed after <= Spacecraft.maxSpeed this
  /\ Spacecraft.maxSpeed after = Spacecraft.maxSpeed this
  /\ Spacecraft.acceleration after = Spacecraft.acceleration this.
Proof.
  intros Hmax Hacc Hspeed after. unfold after, Spacecraft.update.
  destruct (Spacecraft.object this) as [obj | ]; [ | cbn [fst]; repeat split; lra ].
  cbn [fst Spacecraft.moved Spacecraft.speed Spacecraft.maxSpeed Spacecraft.acceleration].
  split; [ | split; reflexivity ].
  destruct (Spacecraft.isAccelerating this); [ | destruct (Spacecraft.isDecelerating this) ];
    entity_ops.
  - unfold Rmin. destruct (Rle_dec _ _); lra.
  - unfold Rmax. destruct (Rle_dec _ _); lra.
  - destruct (Rlt_dec _ _); lra.
Qed.

Lemma spacecraft_speed_limits_witness :
  - 2 / 2 <= Spacecraft.speed (fst (Spacecraft.update (fun r => r) (fun _ _ => EmptyString)
                                      cruiser 1 (fun _ => None))) <= 2.
Proof.
  destruct (spacecraft_speed_limits (fun r => r) (fun _ _ => EmptyString) cruiser 1 (fun _ => None))
    as [Hlimits _]; try (cbn [cruiser Spacecraft.maxSpeed Spacecraft.acceleration
                              Spacecraft.speed]; lra).
  exact Hlimits.
Defined.

(** X19: the pitch stays within a quarter turn up and down: with a rotation
    speed that is not negative, a pitch between [-PI / 4] and [PI / 4] is
    between them again after an update, whatever keys are held (exact
    arithmetic). *)
Theorem spacecraft_pitch_limits
  (forward : Vector3 R -> Vector3 R) (toFixed : R -> nat -> string)
  (this : Spacecraft.t R) (deltaTime : R) (doc : Document) (obj : Object3D R) :
  Spacecraft.object this = Some obj ->
  0 <= Spacecraft.rotationSpeed this ->
  - PI / 4 <= obj.(rotation).(x) <= PI / 4 ->
  exists obj' : Object3D R,
    Spacecraft.object (fst (Spacecraft.update forward toFixed this deltaTime doc)) = Some obj'
    /\ - PI / 4 <= obj'.(rotation).(x) <= PI / 4.
Proof.
  intros Hobj Hrs Hpitch. unfold Spacecraft.update. rewrite Hobj.
  cbn [fst Spacecraft.moved Spacecraft.object]. eexists. split; [ reflexivity | ].
  cbn [rotation x]. pose proof PI_RGT_0 as Hpi.
  destruct (Spacecraft.isPitchingUp this), (Spacecraft.isPitchingDown this); entity_ops;
    unfold Rmin, Rmax; repeat destruct (Rle_dec _ _); lra.
Qed.

Lemma spacecraft_pitch_limits_witness :
  exists obj' : Object3D R,
    Spacecraft.object (fst (Spacecraft.update (fun r => r) (fun _ _ => EmptyString)
                              cruiser 1 (fun _ => None))) = Some obj'
    /\ - PI / 4 <= obj'.(rotation).(x) <= PI / 4.
Proof.
  apply (spacecraft_pitch_limits _ _ cruiser 1 _ restingObject).
  - reflexivity.
  - cbn [cruiser Spacecraft.rotationSpeed]. lra.
  - cbn [restingObject rotation x]. pose proof PI_RGT_0. lra.
Defined.

(** With no thrust key held, one update multiplies the speed by 0.99 and
    snaps it to 0 when that is below 0.001 in magnitude; the keys and the
    presence of the 3D object stay as they are. *)
Lemma coasting_step
  (forward : Vector3 R -> Vector3 R) (toFixed : R -> nat -> string)
  (this : Spacecraft.t R) (deltaTime : R) (doc : Document) :
  Spacecraft.object this <> None ->
  Spacecraft.isAccelerating this = false ->
  Spacecraft.isDecelerating this = false ->
  let after := fst (Spacecraft.update forward toFixed this deltaTime doc) in
  Spacecraft.object after <> None
  /\ Spacecraft.isAccelerating after = false
  /\ Spacecraft.isDecelerating after = false
  /\ (Spacecraft.speed after = 0
      \/ (Spacecraft.speed after = Spacecraft.speed this * (99 / 100)
          /\ 1 / 1000 <= Rabs (Spacecraft.speed this * (99 / 100)))).
Proof.
  intros Hobj Hacc Hdec after. unfold after, Spacecraft.update.
  destruct (Spacecraft.object this) as [obj | ]; [ | congruence ].
  cbn [fst Spacecraft.moved Spacecraft.object Spacecraft.isAccelerating
       Spacecraft.isDecelerating Spacecraft.speed].
  rewrite Hacc, Hdec. entity_ops.
  split; [ discriminate | ]. split; [ reflexivity | ]. split; [ reflexivity | ].
  destruct (Rlt_dec _ _) as [Hsmall | Hlarge].
  - left. reflexivity.
  - replace (99 / (10 * 10)) with (99 / 100) in * by lra.
    replace (1 / (10 * (10 * 10))) with (1 / 1000) in Hlarge by lra.
    right. split; [ reflexivity | lra ].
Qed.

(** X20: coasting ends: a spacecraft with a 3D object and no thrust key held
    comes to a complete stop after finitely many updates, from any speed,
    and stays stopped (exact arithmetic). *)
Theorem coasting_stops
  (forward : Vector3 R -> Vector3 R) (toFixed : R -> nat -> string)
  (this : Spacecraft.t R) (deltaTime : R) (doc : Document) :
  Spacecraft.object this <> None ->
  Spacecraft.isAccelerating this = false ->
  Spacecraft.isDecelerating this = false ->
  exists n : nat, forall k : nat, (n <= k)%nat ->
    Spacecraft.speed (fst (frames forward toFixed k this deltaTime doc)) = 0.
Proof.
  intros Hobj Hacc Hdec.
  set (s0 := Spacecraft.speed this).
  (* the state after k frames *)
  assert (Hinv : forall k : nat,
            let after := fst (frames forward toFixed k this deltaTime doc) in
            Spacecraft.object after <> None
            /\ Spacecraft.isAccelerating after = false
            /\ Spacecraft.isDecelerating after = false
            /\ (Spacecraft.speed after = 0 \/ Spacecraft.speed after = s0 * (99 / 100) ^ k)).
  { induction k as [ | k IH ].
    - cbn. repeat split; try assumption. right. unfold s0. ring.
    - unfold frames in *. rewrite Nat.iter_succ.
      set (state := Nat.iter k _ _) in *. cbv zeta in IH.
      destruct IH as (Hobjk & Hacck & Hdeck & Hspeedk).
      destruct (coasting_step forward toFixed (fst state) deltaTime (snd state)
                  Hobjk Hacck Hdeck) as (Ho & Ha & Hd & Hs).
      cbv zeta. repeat split; try assumption.
      destruct Hs as [Hs | [Hs _]]; [ left; exact Hs | ].
      destruct Hspeedk as [Hz | Hp].
      + left. rewrite Hs, Hz. ring.
      + right. rewrite Hs, Hp. cbn [pow]. ring. }
  (* from some frame on the speed is below the threshold *)
  destruct (pow_lt_1_zero (99 / 100)) with (y := 1 / 1000 / (Rabs s0 + 1)) as [N HN].
  { rewrite Rabs_right; lra. }
  { pose proof (Rabs_pos s0). apply Rdiv_lt_0_compat; lra. }
  exists (S N). intros k Hk.
  destruct k as [ | k ]; [ lia | ].
  destruct (Hinv k) as (Hobjk & Hacck & Hdeck & Hspeedk).
  unfold frames in *. rewrite Nat.iter_succ.
  set (state := Nat.iter k _ _) in *.
  destruct (coasting_step forward toFixed (fst state) deltaTime (snd state)
              Hobjk Hacck Hdeck) as (_ & _ & _ & Hs).
  destruct Hs as [Hs | [_ Hlarge]]; [ exact Hs | exfalso ].
  destruct Hspeedk as [Hz | Hp].
  - rewrite Hz, Rmult_0_l, Rabs_R0 in Hlarge. lra.
  - rewrite Hp in Hlarge.
    assert (Hpow : Rabs ((99 / 100) ^ S k) < 1 / 1000 / (Rabs s0 + 1)) by (apply HN; lia).
    replace (s0 * (99 / 100) ^ k * (99 / 100)) with (s0 * (99 / 100) ^ S k) in Hlarge
      by (cbn [pow]; ring).
    rewrite Rabs_mult in Hlarge.
    pose proof (Rabs_pos s0) as Hs0. pose proof (Rabs_pos ((99 / 100) ^ S k)) as Hp0.
    assert (Hbound : Rabs s0 * Rabs ((99 / 100) ^ S k)
                     <= (Rabs s0 + 1) * Rabs ((99 / 100) ^ S k)) by nra.
    assert (Hlt : (Rabs s0 + 1) * Rabs ((99 / 100) ^ S k) < 1 / 1000).
    { replace (1 / 1000) with ((Rabs s0 + 1) * (1 / 1000 / (Rabs s0 + 1))) by (field; lra).
      apply Rmult_lt_compat_l; [ lra | exact Hpow ]. }
    lra.
Qed.

Lemma coasting_stops_witness :
  exists n : nat, forall k : nat, (n <= k)%nat ->
    Spacecraft.speed (fst (frames (fun r => r) (fun _ _ => EmptyString) k drifter 1
                             (fun _ => None))) = 0.
Proof.
  apply (coasting_stops _ _ drifter 1 (fun _ => None)).
  - discriminate.
  - reflexivity.
  - reflexivity.
Defined.



End Entities.
